(** * javari-pdf: credit ledger, PDF operation handlers and certificate check

    A shallow embedding of the parts of the repository that carry its
    correctness concerns:

    - [src/lib/supabase-client.ts]: [checkUserCredits], [deductCreditsAtomic];
    - the PDF operations route ([CREDIT_COSTS], [authenticateAndCheckCredits],
      [deductCredits], [POST], the page handlers and [parsePageRange]);
    - the credits deduction route ([POST] of /api/credits/deduct);
    - [src/app/api/pdf-signatures/route.ts]: [handleVerifySignature].

    JavaScript numbers are integers here ([Z]); [NaN] is [None].  The page
    counts the handlers see come from a loaded document, far below 2^53, where
    this integer reading of [parseInt], [<=] and [i++] is exact; a number a
    request supplies is read exactly as well, which agrees with the code
    where it is a safe integer, and the theorems about such numbers say so.
    The one fraction the handlers read, an opacity, is kept as the decimal
    literal [parseFloat] reads, and compared as the double nearest to it.
    Strings are ASCII strings.  The datastore is an explicit state threaded
    through a small state-and-exception monad, with a script that says which
    datastore calls report an error. *)

From Stdlib Require Import ZArith String Ascii List Bool Lia Sorted.
From Equations Require Import Equations.
From Equations.Prop Require Import Logic.
From stdpp Require Import gmap strings list pretty.
Import ListNotations.
Set Warnings "-clear-no-such-hyp".
Local Open Scope string_scope.
Local Open Scope list_scope.
Local Open Scope Z_scope.

(** ** JavaScript strings *)

Module Js.

(** [s.split(sep)] for a one-character separator. *)
Fixpoint split (sep : ascii) (s : string) : list string :=
  match s with
  | EmptyString => [EmptyString]
  | String c rest =>
      if Ascii.eqb c sep then EmptyString :: split sep rest
      else match split sep rest with
           | [] => [String c EmptyString]
           | p :: ps => String c p :: ps
           end
  end.

(** White space of [trim] and [parseInt], within ASCII: TAB, LF, VT, FF, CR
    and SPACE. *)
Definition is_space (c : ascii) : bool :=
  let n := N_of_ascii c in
  ((9 <=? n) && (n <=? 13))%N || (n =? 32)%N.

Fixpoint trimStart (s : string) : string :=
  match s with
  | String c rest => if is_space c then trimStart rest else s
  | EmptyString => EmptyString
  end.

Fixpoint trimEnd (s : string) : string :=
  match s with
  | EmptyString => EmptyString
  | String c rest =>
      match trimEnd rest with
      | EmptyString => if is_space c then EmptyString else String c EmptyString
      | rest' => String c rest'
      end
  end.

Definition trim (s : string) : string := trimEnd (trimStart s).

(** [s.includes(c)] for a one-character needle. *)
Fixpoint includes (c : ascii) (s : string) : bool :=
  match s with
  | EmptyString => false
  | String d rest => Ascii.eqb d c || includes c rest
  end.

(** [s.startsWith(p)]. *)
Fixpoint startsWith (p s : string) : bool :=
  match p, s with
  | EmptyString, _ => true
  | String a p', String b s' => Ascii.eqb a b && startsWith p' s'
  | String _ _, EmptyString => false
  end.

(** [s.substring(n)]. *)
Fixpoint substring (n : nat) (s : string) : string :=
  match n, s with
  | O, _ => s
  | S n', String _ s' => substring n' s'
  | S _, EmptyString => EmptyString
  end.

(** [s.replace(pattern, replacement)] with a string pattern: the first
    occurrence only. *)
Fixpoint replace (pattern replacement s : string) : string :=
  if startsWith pattern s
  then (replacement +:+ substring (String.length pattern) s)%string
  else match s with
       | EmptyString => EmptyString
       | String c rest => String c (replace pattern replacement rest)
       end.

(** The value of a character as a digit, in any radix up to 36. *)
Definition digit_value (c : ascii) : option Z :=
  let n := Z.of_N (N_of_ascii c) in
  if (48 <=? n) && (n <=? 57) then Some (n - 48)
  else if (97 <=? n) && (n <=? 122) then Some (n - 87)
  else if (65 <=? n) && (n <=? 90) then Some (n - 55)
  else None.

(** The longest prefix of digits below the radix. *)
Fixpoint digits (radix : Z) (s : string) : list Z :=
  match s with
  | EmptyString => []
  | String c rest =>
      match digit_value c with
      | Some d => if d <? radix then d :: digits radix rest else []
      | None => []
      end
  end.

(** [parseInt(s)] with no radix argument: leading white space, an optional
    sign, an optional [0x] prefix, then the longest run of digits; [None]
    is [NaN]. *)
Definition parseInt (s : string) : option Z :=
  let s1 := trimStart s in
  let '(sign, s2) :=
    match s1 with
    | String "-" r => (-1, r)
    | String "+" r => (1, r)
    | _ => (1, s1)
    end in
  let '(radix, s3) :=
    match s2 with
    | String "0" (String "x" r) => (16, r)
    | String "0" (String "X" r) => (16, r)
    | _ => (10, s2)
    end in
  match digits radix s3 with
  | [] => None
  | ds => Some (sign * fold_left (fun acc d => acc * radix + d) ds 0)
  end.

(** The rest of a string after its longest prefix of decimal digits. *)
Fixpoint skip_digits (s : string) : string :=
  match s with
  | EmptyString => EmptyString
  | String c rest =>
      match digit_value c with
      | Some d => if d <? 10 then skip_digits rest else s
      | None => s
      end
  end.

Definition decimal_value (ds : list Z) : Z := fold_left (fun acc d => acc * 10 + d) ds 0.

(** What [parseFloat] reads, before it is rounded to a double: a decimal
    literal [mantissa * 10 ^ exponent] with its sign, or an infinity. *)
Inductive Decimal :=
| Finite (negative : bool) (mantissa exponent : Z)
| Infinity (negative : bool).

(** [parseFloat(s)]: leading white space, an optional sign, then the longest
    prefix that is [Infinity] or a decimal literal (digits, an optional
    fraction, and an exponent when digits follow the [e]); [None] is [NaN]. *)
Definition parseFloat (s : string) : option Decimal :=
  let s1 := trimStart s in
  let '(negative, s2) :=
    match s1 with
    | String "-" r => (true, r)
    | String "+" r => (false, r)
    | _ => (false, s1)
    end in
  if startsWith "Infinity" s2 then Some (Infinity negative)
  else
    let whole := digits 10 s2 in
    let s3 := skip_digits s2 in
    let '(fraction, s4) :=
      match s3 with
      | String "." r => (digits 10 r, skip_digits r)
      | _ => ([], s3)
      end in
    match whole ++ fraction with
    | [] => None
    | ds =>
        let signed r :=
          let '(sign, r') :=
            match r with
            | String "-" r' => (-1, r')
            | String "+" r' => (1, r')
            | _ => (1, r)
            end in
          sign * decimal_value (digits 10 r') in
        let exponent :=
          match s4 with
          | String "e" r | String "E" r => signed r
          | _ => 0
          end in
        Some (Finite negative (decimal_value ds) (exponent - Z.of_nat (length fraction)))
    end.

(** The double nearest to [mantissa * 10 ^ exponent] is zero: the value is
    at most [2 ^ -1075], half the least positive double (a tie goes to
    zero). *)
Definition rounds_to_zero (mantissa exponent : Z) : bool :=
  mantissa * 10 ^ Z.max exponent 0 * 2 ^ 1075 <=? 10 ^ Z.max (- exponent) 0.

(** The double nearest to [mantissa * 10 ^ exponent] is at most 1: the value
    is at most [1 + 2 ^ -53], half way to the next double (a tie goes to 1). *)
Definition rounds_to_at_most_1 (mantissa exponent : Z) : bool :=
  mantissa * 10 ^ Z.max exponent 0 * 2 ^ 53 <=? (2 ^ 53 + 1) * 10 ^ Z.max (- exponent) 0.

(** [x || d] on a number: [NaN] and both zeros give the default. *)
Definition float_or (x : option Decimal) (d : Decimal) : Decimal :=
  match x with
  | None => d
  | Some (Finite negative mantissa exponent) =>
      if rounds_to_zero mantissa exponent then d
      else Finite negative mantissa exponent
  | Some (Infinity negative) => Infinity negative
  end.

(** [0 <= x && x <= 1] on a number. *)
Definition in_unit_interval (x : Decimal) : bool :=
  match x with
  | Infinity _ => false
  | Finite negative mantissa exponent =>
      rounds_to_zero mantissa exponent
      || (negb negative && rounds_to_at_most_1 mantissa exponent)
  end.


(** [[...new Set(xs)]]: the distinct values, in order of first occurrence. *)
Definition new_Set (xs : list Z) : list Z :=
  fold_left (fun seen x => if existsb (Z.eqb x) seen then seen else seen ++ [x]) xs [].

(** [xs.sort((a, b) => a - b)]: ascending numeric order, stable. *)
Fixpoint insert_sorted (x : Z) (xs : list Z) : list Z :=
  match xs with
  | [] => [x]
  | y :: ys => if x <? y then x :: y :: ys else y :: insert_sorted x ys
  end.

Definition sort_numeric (xs : list Z) : list Z :=
  fold_left (fun acc x => insert_sorted x acc) xs [].

(** [Array.from({ length: n }, (_, i) => i)]. *)
Definition range0 (n : Z) : list Z := map Z.of_nat (seq 0 (Z.to_nat n)).

End Js.

(** ** [parsePageRange] *)

(** The loop [for (let i = start; i <= end && i <= totalPages; i++)
    if (i >= 1) indices.push(i - 1)]. *)
Equations? range_loop (i end_ totalPages : Z) (indices : list Z) : list Z
  by wf (Z.to_nat (totalPages + 1 - i)) lt :=
  range_loop i end_ totalPages indices with inspect ((i <=? end_) && (i <=? totalPages)) => {
    | exist _ true continue :=
        range_loop (i + 1) end_ totalPages
          (if 1 <=? i then indices ++ [i - 1] else indices);
    | exist _ false _ := indices }.
Proof.
  match goal with H : _ = true |- _ => apply andb_prop in H as [_ H%Z.leb_le] end.
  lia.
Qed.

(** One comma-separated part of the expression. *)
Definition parse_part (totalPages : Z) (indices : list Z) (part : string) : list Z :=
  let trimmed := Js.trim part in
  if Js.includes "-" trimmed then
    let nums := map (fun n => Js.parseInt (Js.trim n)) (Js.split "-" trimmed) in
    match nums with
    | Some start :: Some end_ :: _ => range_loop start end_ totalPages indices
    | _ => indices
    end
  else
    match Js.parseInt trimmed with
    | Some num =>
        if (1 <=? num) && (num <=? totalPages) then indices ++ [num - 1] else indices
    | None => indices
    end.

Definition parsePageRange (range : string) (totalPages : Z) : list Z :=
  let indices := fold_left (parse_part totalPages) (Js.split "," range) [] in
  Js.sort_numeric (Js.new_Set indices).

(** ** Exceptions *)

(** What a computation throws: an [Error] instance, or an object that is not
    one, as the error objects are that the backend client reports.  Both
    carry a [message]; a [catch] that tests [error instanceof Error] tells
    them apart.  A string stands for the [Error] with that message. *)
Inductive Thrown :=
| Error (message : string)
| ErrorObject (message : string).

Coercion Error : string >-> Thrown.

Definition message_of (thrown : Thrown) : string :=
  match thrown with
  | Error message | ErrorObject message => message
  end.

(** [error instanceof Error ? error.message : fallback]. *)
Definition Error_message_or (thrown : Thrown) (fallback : string) : string :=
  match thrown with
  | Error message => message
  | ErrorObject _ => fallback
  end.

(** A computation returns a value or throws. *)
Inductive Res (A : Type) : Type :=
| Ok (a : A)
| Throw (thrown : Thrown).
Arguments Ok {A} a.
Arguments Throw {A} thrown.

#[global] Instance Res_ret : MRet Res := @Ok.
#[global] Instance Res_bind : MBind Res := fun A B f m =>
  match m with
  | Ok a => f a
  | Throw e => Throw e
  end.

(** ** Documents and the PDF library *)

(** A page: what it shows ([0] for a page that shows nothing), its [Rotate]
    entry and the text drawn over it.  A document is the list of its pages.
    A handler's result is the document it saves; the byte encoding of a
    document is not modelled, and the file names and messages the handlers
    return next to the document are left out. *)
Record Page := { content : nat; rotation : Z; overlays : list string }.

Abbreviation PDFDocument := (list Page).

(** An uploaded file; [bytes] is [None] when [PDFDocument.load] rejects it. *)
Record File := { name : string; bytes : option PDFDocument }.

Record FormData := {
  file : option File;              (* formData.get('file') *)
  files : list File;               (* formData.getAll('files') *)
  fields : gmap string string      (* the text fields *)
}.

Definition get (formData : FormData) (key : string) : option string :=
  fields formData !! key.

(** [x || d] on a string that may be [null]. *)
Definition str_or (x : option string) (d : string) : string :=
  match x with
  | None | Some EmptyString => d
  | Some s => s
  end.

(** [parseInt(x) || d]: [NaN] and [0] give the default. *)
Definition int_or (x : option Z) (d : Z) : Z :=
  match x with
  | None | Some 0 => d
  | Some z => z
  end.

Arguments int_or : simpl never.

(** A string field that passes a [!x] guard: neither [null] nor empty. *)
Definition truthy (x : option string) : option string :=
  match x with
  | Some EmptyString => None
  | _ => x
  end.

Arguments truthy : simpl never.
Arguments str_or : simpl never.

Module PdfLib.

Definition load (f : File) : Res PDFDocument :=
  match bytes f with
  | Some pdf => Ok pdf
  | None => Throw "Failed to parse PDF document"
  end.

Definition getPageCount (pdf : PDFDocument) : Z := Z.of_nat (length pdf).

Definition getPage (pdf : PDFDocument) (index : Z) : Res Page :=
  if (0 <=? index) && (index <? getPageCount pdf) then
    match pdf !! Z.to_nat index with
    | Some page => Ok page
    | None => Throw "index out of range"
    end
  else Throw "index out of range".

(** [page.setRotation(degrees(angle))]: the library asserts
    [angle % 90 === 0] and throws otherwise. *)
Definition setRotation (angle : Z) (page : Page) : Res Page :=
  if Z.rem angle 90 =? 0
  then Ok {| content := content page; rotation := angle; overlays := overlays page |}
  else Throw ("`degreesAngle` must be a multiple of 90, but was actually " +:+ pretty angle).

(** The characters the standard Helvetica font can write, in the WinAnsi
    encoding: within ASCII, the printable ones, SPACE to TILDE.  A control
    character, a line break or a tab among them, has no code. *)
Definition encodable_char (c : ascii) : bool :=
  let n := N_of_ascii c in ((32 <=? n) && (n <=? 126))%N.


(** A code point as the encoder's message prints it: four hexadecimal
    digits, in lower case. *)
Definition hex_char (d : N) : ascii :=
  ascii_of_N (if (d <? 10)%N then 48 + d else 87 + d).

Definition hex4 (c : ascii) : string :=
  let n := N_of_ascii c in
  "00" +:+ String (hex_char (n / 16)) (String (hex_char (n mod 16)) EmptyString).

(** [rgb(red / 255, green / 255, blue / 255)], the components given in
    255ths: the library asserts that each lies between 0 and 1. *)
Definition rgb (red green blue : Z) : Res unit :=
  if negb ((0 <=? red) && (red <=? 255)) then
    Throw "`red` must be at least 0 and at most 1"
  else if negb ((0 <=? green) && (green <=? 255)) then
    Throw "`green` must be at least 0 and at most 1"
  else if negb ((0 <=? blue) && (blue <=? 255)) then
    Throw "`blue` must be at least 0 and at most 1"
  else Ok tt.

(** [font.widthOfTextAtSize(text, size)]: the width only places the text;
    the call throws at the first character the font cannot encode. *)
Definition widthOfTextAtSize (text : string) : Res unit :=
  match List.find (fun c => negb (encodable_char c)) (list_ascii_of_string text) with
  | None => Ok tt
  | Some c =>
      Throw ("WinAnsi cannot encode " +:+ String "034" (String c (String "034" EmptyString))
             +:+ " (0x" +:+ hex4 c +:+ ")")
  end.

(** [page.drawText(text, { ..., opacity })], for a text that
    [widthOfTextAtSize] has accepted, as both callers make sure: the library
    asserts that an opacity, when one is given, lies between 0 and 1, and
    draws the text over the page.  (The messages of the range assertions go
    on to quote the number.) *)
Definition drawText (text : string) (opacity : option Js.Decimal) (page : Page)
  : Res Page :=
  if negb (default true (Js.in_unit_interval <$> opacity))
  then Throw "`opacity.opacity` must be at least 0 and at most 1"
  else Ok {| content := content page; rotation := rotation page;
             overlays := overlays page ++ [text] |}.

(** [copyPages(src, indices)]; an index that is [NaN] ([None]) or out of
    range makes the library throw. *)
Fixpoint copyPages (src : PDFDocument) (indices : list (option Z)) : Res (list Page) :=
  match indices with
  | [] => Ok []
  | index :: rest =>
      match index with
      | Some i => page ← getPage src i; pages ← copyPages src rest; Ok (page :: pages)
      | None => Throw "index out of range"
      end
  end.

(** The page [addPage()] creates: empty, not rotated. *)
Definition blank_page : Page := {| content := 0; rotation := 0; overlays := [] |}.

(** [pdf.save()]: a document without pages is given one blank page before
    it is written. *)
Definition save (pdf : PDFDocument) : PDFDocument :=
  match pdf with
  | [] => [blank_page]
  | _ => pdf
  end.

End PdfLib.

(** [indices.forEach(index => { const page = pdf.getPage(index); update page })]
    on a document that is changed in place; an update that throws ends the
    loop and the handler. *)
Fixpoint forEachPage (update : Page -> Res Page) (indices : list Z) (pdf : PDFDocument)
  : Res PDFDocument :=
  match indices with
  | [] => Ok pdf
  | index :: rest =>
      page ← PdfLib.getPage pdf index;
      updated ← update page;
      forEachPage update rest (<[Z.to_nat index := updated]> pdf)
  end.

(** ** [hexToRgbValues] *)

(** A hexadecimal digit, in either case. *)
Definition hex_digit (c : ascii) : option Z :=
  match Js.digit_value c with
  | Some d => if d <? 16 then Some d else None
  | None => None
  end.

(** The match of [/^#?([a-f\d]{2})([a-f\d]{2})([a-f\d]{2})$/i]: an optional
    [#] and exactly six hexadecimal digits; each pair is read in base 16.
    Anything else gives the grey default. *)
Definition hexToRgbValues (hex : string) : Z * Z * Z :=
  let digits := match hex with
                | String "#" rest => rest
                | _ => hex
                end in
  match map hex_digit (list_ascii_of_string digits) with
  | [Some r1; Some r0; Some g1; Some g0; Some b1; Some b0] =>
      (r1 * 16 + r0, g1 * 16 + g0, b1 * 16 + b0)
  | _ => (128, 128, 128)
  end.

(** ** The operation handlers *)

(** The page selector of [handleRotate] and [handleWatermark]:
    ['all'], ['odd'], ['even'], or a page-range expression. *)
Definition selectPages (pages : string) (totalPages : Z) : list Z :=
  if String.eqb pages "all" then Js.range0 totalPages
  else if String.eqb pages "odd" then
    List.filter (fun i => i mod 2 =? 0) (Js.range0 totalPages)
  else if String.eqb pages "even" then
    List.filter (fun i => i mod 2 =? 1) (Js.range0 totalPages)
  else parsePageRange pages totalPages.

Definition allowed_angles : list Z := [90; 180; 270; -90; -180; -270].

Definition handleRotate (formData : FormData) : Res PDFDocument :=
  let angle := int_or (get formData "angle" ≫= Js.parseInt) 90 in
  let pages := str_or (get formData "pages") "all" in
  match file formData with
  | None => Throw "PDF file required"
  | Some f =>
      if negb (existsb (Z.eqb angle) allowed_angles)
      then Throw "Invalid rotation angle. Use 90, 180, or 270 degrees"
      else
        pdf ← PdfLib.load f;
        let totalPages := PdfLib.getPageCount pdf in
        let pageIndices := selectPages pages totalPages in
        rotated ← forEachPage (fun page => PdfLib.setRotation (rotation page + angle) page)
                    pageIndices pdf;
        Ok (PdfLib.save rotated)
  end.

(** The position and the font size of the text only place it. *)
Definition handleWatermark (formData : FormData) : Res PDFDocument :=
  let text := str_or (get formData "text") "CONFIDENTIAL" in
  let opacity :=
    Js.float_or (get formData "opacity" ≫= Js.parseFloat) (Js.Finite false 3 (-1)) in
  let color := str_or (get formData "color") "#888888" in
  let pages := str_or (get formData "pages") "all" in
  match file formData with
  | None => Throw "PDF file required"
  | Some f =>
      pdf ← PdfLib.load f;
      let totalPages := PdfLib.getPageCount pdf in
      let '(r, g, b) := hexToRgbValues color in
      let pageIndices := selectPages pages totalPages in
      marked ← forEachPage
                 (fun page =>
                    PdfLib.widthOfTextAtSize text;;
                    PdfLib.rgb r g b;;
                    PdfLib.drawText text (Some opacity) page)
                 pageIndices pdf;
      Ok (PdfLib.save marked)
  end.

Definition handleExtractPages (formData : FormData) : Res PDFDocument :=
  match file formData, truthy (get formData "range") with
  | Some f, Some range =>
      sourcePdf ← PdfLib.load f;
      let totalPages := PdfLib.getPageCount sourcePdf in
      let pageIndices := parsePageRange range totalPages in
      pages ← PdfLib.copyPages sourcePdf (map Some pageIndices);
      Ok (PdfLib.save pages)
  | _, _ => Throw "PDF file and page range required"
  end.

Definition handleDeletePages (formData : FormData) : Res PDFDocument :=
  match file formData, truthy (get formData "pages") with
  | Some f, Some pagesToDelete =>
      sourcePdf ← PdfLib.load f;
      let totalPages := PdfLib.getPageCount sourcePdf in
      let deleteIndices := parsePageRange pagesToDelete totalPages in
      let keepIndices :=
        List.filter (fun i => negb (existsb (Z.eqb i) deleteIndices))
          (Js.range0 totalPages) in
      if (length keepIndices =? 0)%nat then Throw "Cannot delete all pages"
      else
        pages ← PdfLib.copyPages sourcePdf (map Some keepIndices);
        Ok (PdfLib.save pages)
  | _, _ => Throw "PDF file and pages to delete required"
  end.

Definition handleReorderPages (formData : FormData) : Res PDFDocument :=
  match file formData, truthy (get formData "order") with
  | Some f, Some newOrder =>
      sourcePdf ← PdfLib.load f;
      let totalPages := PdfLib.getPageCount sourcePdf in
      let orderIndices :=
        map (fun n => (fun k => k - 1) <$> Js.parseInt (Js.trim n)) (Js.split "," newOrder) in
      if negb (Z.of_nat (length orderIndices) =? totalPages)
      then Throw ("Order must include all " +:+ pretty totalPages +:+ " pages")
      else if existsb (fun i => match i with
                                | Some i => (i <? 0) || (totalPages <=? i)
                                | None => false
                                end) orderIndices
      then Throw "Invalid page number in order"
      else
        pages ← PdfLib.copyPages sourcePdf orderIndices;
        Ok (PdfLib.save pages)
  | _, _ => Throw "PDF file and new page order required"
  end.

(** ** Shapes of page-range expressions *)

(** A page number as the interface documents it: a non-empty run of decimal
    digits. *)
Definition is_page_number (s : string) : bool :=
  negb (String.eqb s "") &&
  forallb (fun c => let n := N_of_ascii c in ((48 <=? n) && (n <=? 57))%N)
          (list_ascii_of_string s).

(** A part of a valid expression: a single page, or [a-b]. *)
Definition valid_part (part : string) : bool :=
  match Js.split "-" (Js.trim part) with
  | [p] => is_page_number p
  | [a; b] => is_page_number (Js.trim a) && is_page_number (Js.trim b)
  | _ => false
  end.

(** A valid page-range expression: a comma-separated list of such parts. *)
Definition valid_page_range (range : string) : bool :=
  forallb valid_part (Js.split "," range).

(** A part that selects nothing in a document of [totalPages] pages: not a
    number, a page outside [1..totalPages], or a range with a bound that is
    not a number, that descends, or that starts beyond the last page. *)
Definition dropped_part (totalPages : Z) (part : string) : bool :=
  let trimmed := Js.trim part in
  if Js.includes "-" trimmed then
    match map (fun n => Js.parseInt (Js.trim n)) (Js.split "-" trimmed) with
    | Some start :: Some end_ :: _ => (end_ <? start) || (totalPages <? start)
    | _ => true
    end
  else
    match Js.parseInt trimmed with
    | Some num => (num <? 1) || (totalPages <? num)
    | None => true
    end.

(** The selector keywords of [handleRotate] and [handleWatermark]. *)
Definition is_keyword (pages : string) : bool :=
  String.eqb pages "all" || String.eqb pages "odd" || String.eqb pages "even".

(** ** The datastore *)

(** An audit row of [credit_transactions]; [created_at] is a time stamp and
    is left out. *)
Record Transaction := { tx_user_id : string; tx_amount : Z; tx_reason : string }.

(** The calls a request makes to the backend, in the order it makes them. *)
Inductive Call :=
| AuthGetUser (token : string)
| SelectCredits (user_id : string)
| InsertCredits (user_id : string) (credits : Z)
| UpdateCredits (user_id : string) (credits : Z)
| InsertTransaction (t : Transaction)
| RpcDeductCredits (user_id : string) (amount : Z).

(** The backend as a request sees it.  [user_credits] holds one balance per
    user (the ledger reads it as column [credits], the operations route as
    column [balance]); [sessions] maps the bearer tokens the auth service
    accepts to their users; [faults] scripts the backend's failures, one flag
    per call in order, [true] for a call that reports an error (a call past
    the end of the script succeeds); [calls] logs the calls made. *)
Record World := {
  user_credits : gmap string Z;
  credit_transactions : list Transaction;
  sessions : gmap string string;
  faults : list bool;
  calls : list Call
}.

Definition set_store (credits : gmap string Z) (txs : list Transaction) (w : World) : World :=
  {| user_credits := credits; credit_transactions := txs;
     sessions := sessions w; faults := faults w; calls := calls w |}.

(** ** Computations over the datastore *)

Record M (A : Type) : Type := Comp { run : World -> Res A * World }.
Arguments Comp {A} run.
Arguments run {A} m w.

#[global] Instance M_ret : MRet M := fun A a => Comp (fun w => (Ok a, w)).
#[global] Instance M_bind : MBind M := fun A B k m =>
  Comp (fun w =>
    match run m w with
    | (Ok a, w') => run (k a) w'
    | (Throw e, w') => (Throw e, w')
    end).

Definition throw {A} (thrown : Thrown) : M A := Comp (fun w => (Throw thrown, w)).

(** [try { body } catch (error) { handler(error) }]. *)
Definition try_catch {A} (body : M A) (handler : Thrown -> M A) : M A :=
  Comp (fun w =>
    match run body w with
    | (Ok a, w') => (Ok a, w')
    | (Throw e, w') => run (handler e) w'
    end).

(** A pure computation that may throw, run inside a request. *)
Definition lift {A} (r : Res A) : M A := Comp (fun w => (r, w)).

Definition get_world : M World := Comp (fun w => (Ok w, w)).

Definition modify_store (f : World -> World) : M unit := Comp (fun w => (Ok tt, f w)).

(** Every backend call is logged and consumes one flag of the fault script;
    the result says whether the call reports an error. *)
Definition backend_call (c : Call) : M bool :=
  Comp (fun w =>
    (Ok (hd false (faults w)),
     {| user_credits := user_credits w; credit_transactions := credit_transactions w;
        sessions := sessions w; faults := tl (faults w); calls := calls w ++ [c] |})).

(** The error object the backend client reports for a call that failed; it
    is a plain object, not an [Error] instance. *)
Definition backend_error : Thrown := ErrorObject "backend error".

(** [from('user_credits').select(..).eq('user_id', id).single()]. *)
Inductive Selected :=
| Row (credits : Z)
| NoRows          (* error code PGRST116 *)
| QueryError.

Definition select_credits (user_id : string) : M Selected :=
  failed ← backend_call (SelectCredits user_id);
  if failed : bool then mret QueryError
  else
    w ← get_world;
    mret (match user_credits w !! user_id with
          | Some credits => Row credits
          | None => NoRows
          end).

(** [from('user_credits').insert({ user_id, credits })]; returns whether the
    call reported an error. *)
Definition insert_credits (user_id : string) (credits : Z) : M bool :=
  failed ← backend_call (InsertCredits user_id credits);
  if failed : bool then mret true
  else
    w ← get_world;
    match user_credits w !! user_id with
    | Some _ => mret true
    | None =>
        modify_store (set_store (<[user_id := credits]> (user_credits w))
                                (credit_transactions w));;
        mret false
    end.

(** [from('user_credits').update({ credits }).eq('user_id', id)]; a user
    without a row is left without one. *)
Definition update_credits (user_id : string) (credits : Z) : M bool :=
  failed ← backend_call (UpdateCredits user_id credits);
  if failed : bool then mret true
  else
    w ← get_world;
    modify_store (set_store (alter (fun _ => credits) user_id (user_credits w))
                            (credit_transactions w));;
    mret false.

(** [from('credit_transactions').insert(row)]. *)
Definition insert_transaction (t : Transaction) : M bool :=
  failed ← backend_call (InsertTransaction t);
  if failed : bool then mret true
  else
    w ← get_world;
    modify_store (set_store (user_credits w) (credit_transactions w ++ [t]));;
    mret false.

(** [supabase.auth.getUser(token)]: the user of a token the service accepts. *)
Definition auth_getUser (token : string) : M (option string) :=
  failed ← backend_call (AuthGetUser token);
  if failed : bool then mret None
  else w ← get_world; mret (sessions w !! token).

(** The calls that charge a user: they decrement a balance or write an
    audit row. *)
Definition is_charge (c : Call) : bool :=
  match c with
  | RpcDeductCredits _ _ | InsertTransaction _ | UpdateCredits _ _ => true
  | _ => false
  end.

(** A specification of a computation: it only appends to the call log; its
    results satisfy [P]; and, when [charging] is [false], it makes no
    charging call and leaves the balances and the audit rows as they are. *)
Definition behaves {A} (charging : bool) (P : A -> Prop) (m : M A) : Prop :=
  forall w,
    (exists trace, calls (run m w).2 = calls w ++ trace /\
                   (charging = false -> existsb is_charge trace = false)) /\
    (charging = false ->
     user_credits (run m w).2 = user_credits w /\
     credit_transactions (run m w).2 = credit_transactions w) /\
    (forall a, (run m w).1 = Ok a -> P a).

(** ** The credit ledger ([src/lib/supabase-client.ts]) *)

Definition checkUserCredits (userId : string) (required : Z) : M (bool * Z) :=
  selected ← select_credits userId;
  match selected with
  | NoRows =>
      insert_credits userId 0;;
      mret (false, 0)
  | QueryError => throw backend_error
  | Row credits =>
      let current := int_or (Some credits) 0 in
      mret (required <=? current, current)
  end.

Record DeductResult := {
  success : bool;
  error : option string;
  remaining : Z;
  required : option Z
}.

Definition deductCreditsAtomic (userId : string) (amount : Z) (reason : string)
  : M DeductResult :=
  '(hasCredits, current) ← checkUserCredits userId amount;
  if negb hasCredits then
    mret {| success := false; error := Some "Insufficient credits";
            remaining := current; required := Some amount |}
  else
    try_catch
      (updateError ← update_credits userId (current - amount);
       if updateError : bool then throw backend_error
       else
         logError ← insert_transaction
                      {| tx_user_id := userId; tx_amount := - amount; tx_reason := reason |};
         if logError : bool then
           update_credits userId current;;
           throw backend_error
         else
           mret {| success := true; error := None;
                   remaining := current - amount; required := None |})
      (fun error =>
         mret {| success := false;
                 error := Some (Error_message_or error "Transaction failed");
                 remaining := current; required := None |}).

(** The first [k] backend calls of the script succeed. *)
Definition fault_free (k : nat) (w : World) : bool :=
  forallb negb (firstn k (faults w)).

(** ** The PDF operations route *)

Module PdfOperations.

(** [CREDIT_COSTS], in the order of the object literal. *)
Definition CREDIT_COSTS : list (string * Z) :=
  [("merge", 2); ("split", 2); ("rotate", 1); ("compress", 3); ("watermark", 2);
   ("protect", 2); ("unlock", 3); ("extract_pages", 1); ("add_page_numbers", 1);
   ("delete_pages", 1); ("reorder_pages", 1)].

(** The names every object literal inherits from [Object.prototype]. *)
Definition Object_prototype : list string :=
  ["constructor"; "toString"; "toLocaleString"; "valueOf"; "hasOwnProperty";
   "isPrototypeOf"; "propertyIsEnumerable"; "__proto__"; "__defineGetter__";
   "__defineSetter__"; "__lookupGetter__"; "__lookupSetter__"].

(** [CREDIT_COSTS[operation]]: a cost, a value that is not a number
    (inherited, truthy), or [undefined]. *)
Inductive Entry :=
| Cost (cost : Z)
| Inherited
| Undefined.

Definition lookup_cost (operation : string) : Entry :=
  match find (fun entry => String.eqb (fst entry) operation) CREDIT_COSTS with
  | Some (_, cost) => Cost cost
  | None =>
      if existsb (String.eqb operation) Object_prototype then Inherited else Undefined
  end.

(** [pdf.getPageIndices()] copied into the merged document, file by file. *)
Fixpoint mergeFiles (files : list File) (mergedPdf : PDFDocument) : Res PDFDocument :=
  match files with
  | [] => Ok mergedPdf
  | f :: rest =>
      pdf ← PdfLib.load f;
      pages ← PdfLib.copyPages pdf (map Some (Js.range0 (PdfLib.getPageCount pdf)));
      mergeFiles rest (mergedPdf ++ pages)
  end.

Definition handleMerge (formData : FormData) : Res PDFDocument :=
  if (length (files formData) <? 2)%nat
  then Throw "At least 2 PDF files required for merge"
  else
    mergedPdf ← mergeFiles (files formData) [];
    Ok (PdfLib.save mergedPdf).

Definition handleSplit (formData : FormData) : Res PDFDocument :=
  let mode := str_or (get formData "mode") "all" in
  let range := get formData "range" in
  let pageNumber := int_or (get formData "pageNumber" ≫= Js.parseInt) 1 in
  match file formData with
  | None => Throw "PDF file required"
  | Some f =>
      sourcePdf ← PdfLib.load f;
      let totalPages := PdfLib.getPageCount sourcePdf in
      if String.eqb mode "single" && (1 <=? pageNumber) && (pageNumber <=? totalPages)
      then
        pages ← PdfLib.copyPages sourcePdf [Some (pageNumber - 1)];
        Ok (PdfLib.save pages)
      else
        match (if String.eqb mode "range" then truthy range else None) with
        | Some range =>
            pages ← PdfLib.copyPages sourcePdf (map Some (parsePageRange range totalPages));
            Ok (PdfLib.save pages)
        | None =>
            pages ← PdfLib.copyPages sourcePdf [Some 0];
            Ok (PdfLib.save pages)
        end
  end.

(** The metadata [handleCompress] clears is not part of the page model. *)
Definition handleCompress (formData : FormData) : Res PDFDocument :=
  match file formData with
  | None => Throw "PDF file required"
  | Some f =>
      pdf ← PdfLib.load f;
      Ok (PdfLib.save pdf)
  end.

(** [for (let i = ...; i < totalPages; i++) { const page = pdf.getPage(i);
    stamp page }] over the pages from index [i] on; a stamp that throws ends
    the loop and the handler. *)
Fixpoint numberPages (stamp : Z -> Page -> Res Page) (i : Z) (pages : list Page)
  : Res (list Page) :=
  match pages with
  | [] => Ok []
  | page :: rest =>
      stamped ← stamp i page;
      others ← numberPages stamp (i + 1) rest;
      Ok (stamped :: others)
  end.

(** The page numbers are integers, exact where the request's [startNumber]
    and the numbers counted from it are safe integers. *)
Definition handleAddPageNumbers (formData : FormData) : Res PDFDocument :=
  let format := str_or (get formData "format") "Page {n} of {total}" in
  let startNumber := int_or (get formData "startNumber" ≫= Js.parseInt) 1 in
  match file formData with
  | None => Throw "PDF file required"
  | Some f =>
      pdf ← PdfLib.load f;
      let totalPages := PdfLib.getPageCount pdf in
      numbered ← numberPages
                   (fun i page =>
                      let pageNum := startNumber + i in
                      let text :=
                        Js.replace "{total}" (pretty (totalPages + startNumber - 1))
                          (Js.replace "{n}" (pretty pageNum) format) in
                      PdfLib.widthOfTextAtSize text;;
                      PdfLib.drawText text None page)
                   0 pdf;
      Ok (PdfLib.save numbered)
  end.

(** The [switch (operation)] of [POST]; [None] is the [default] branch. *)
Definition dispatch (operation : string) : option (FormData -> Res PDFDocument) :=
  if String.eqb operation "merge" then Some handleMerge
  else if String.eqb operation "split" then Some handleSplit
  else if String.eqb operation "rotate" then Some handleRotate
  else if String.eqb operation "compress" then Some handleCompress
  else if String.eqb operation "watermark" then Some handleWatermark
  else if String.eqb operation "extract_pages" then Some handleExtractPages
  else if String.eqb operation "add_page_numbers" then Some handleAddPageNumbers
  else if String.eqb operation "delete_pages" then Some handleDeletePages
  else if String.eqb operation "reorder_pages" then Some handleReorderPages
  else None.

Record Request := {
  operation : option string;        (* searchParams.get('operation') *)
  authorization : option string;    (* the authorization header *)
  body : option FormData            (* None: request.formData() throws *)
}.

Inductive Response :=
| JsonError (status : Z) (error : string) (required_available : option (Z * Z))
| PdfResponse (pdfBytes : PDFDocument) (creditsUsed : Z).

Definition status (response : Response) : Z :=
  match response with
  | JsonError status _ _ => status
  | PdfResponse _ _ => 200
  end.

Section Route.

(** The database function [deduct_credits] called through [supabase.rpc] is
    not among the sources; it is a parameter that maps the stored balances
    and audit rows to new ones, or fails. *)
Variable deduct_credits :
  string -> Z -> gmap string Z * list Transaction ->
  option (gmap string Z * list Transaction).

Definition rpc_deduct_credits (user_id : string) (amount : Z) : M bool :=
  failed ← backend_call (RpcDeductCredits user_id amount);
  if failed : bool then mret true
  else
    w ← get_world;
    match deduct_credits user_id amount (user_credits w, credit_transactions w) with
    | None => mret true
    | Some (credits, txs) => modify_store (set_store credits txs);; mret false
    end.

(** Returns the user id, or the response that ends the request.  [cost] is
    [None] when the table entry is not a number; [balance < cost] is then
    false. *)
Definition authenticateAndCheckCredits (request : Request) (cost : option Z)
  : M (string + Response) :=
  match authorization request with
  | None => mret (inr (JsonError 401 "Unauthorized" None))
  | Some authHeader =>
      if negb (Js.startsWith "Bearer " authHeader)
      then mret (inr (JsonError 401 "Unauthorized" None))
      else
        let token := Js.substring 7 authHeader in
        user ← auth_getUser token;
        match user with
        | None => mret (inr (JsonError 401 "Invalid token" None))
        | Some userId =>
            selected ← select_credits userId;
            let balance :=
              match selected with
              | Row balance => int_or (Some balance) 0
              | _ => 0
              end in
            match cost with
            | Some cost =>
                if balance <? cost
                then mret (inr (JsonError 402 "Insufficient credits" (Some (cost, balance))))
                else mret (inl userId)
            | None => mret (inl userId)
            end
        end
  end.

(** The description of the audit row names the operation and the result's
    file name; only the operation is kept. *)
Definition deductCredits (userId operation : string) (cost : Z) : M unit :=
  updateError ← rpc_deduct_credits userId cost;
  if updateError : bool then throw "Failed to deduct credits"
  else
    insert_transaction
      {| tx_user_id := userId; tx_amount := - cost; tx_reason := "PDF " +:+ operation |};;
    mret tt.

(** The response to a request.  A successful response is the saved document
    and the credits used; the headers that carry the result's file name and
    message next to them are built by the platform and are not part of the
    model. *)
Definition POST (request : Request) : M Response :=
  try_catch
    (match operation request with
     | None | Some EmptyString => mret (JsonError 400 "Invalid operation" None)
     | Some operation =>
         match lookup_cost operation with
         | Undefined => mret (JsonError 400 "Invalid operation" None)
         | entry =>
             let cost := match entry with Cost cost => Some cost | _ => None end in
             auth ← authenticateAndCheckCredits request cost;
             match auth with
             | inr error => mret error
             | inl userId =>
                 match body request with
                 | None => throw "Failed to parse body as FormData"
                 | Some formData =>
                     match dispatch operation, cost with
                     | Some handler, Some cost =>
                         result ← lift (handler formData);
                         deductCredits userId operation cost;;
                         mret (PdfResponse result cost)
                     | _, _ => mret (JsonError 501 "Operation not implemented" None)
                     end
                 end
             end
         end
     end)
    (fun error =>
       mret (JsonError 500 (str_or (Some (message_of error)) "PDF operation failed") None)).

End Route.

(** What the request's handler returns, when the request names an operation
    of the [switch] and carries a form. *)
Definition outcome (request : Request) : option (Res PDFDocument) :=
  match operation request, body request with
  | Some operation, Some formData =>
      match dispatch operation with
      | Some handler => Some (handler formData)
      | None => None
      end
  | _, _ => None
  end.

End PdfOperations.

(** ** The credits deduction route ([POST /api/credits/deduct]) *)

Module CreditsDeduct.

(** The JSON body; a field that is absent is [None]. *)
Record Body := {
  user_id : option string;
  amount : option Z;
  reason : option string
}.

(** [json] is [None] when [request.json()] throws.  The route never reads
    the [authorization] header; it is part of the request all the same. *)
Record Request := {
  authorization : option string;
  json : option Body
}.

Inductive Response :=
| JsonError (status : Z) (error : string)
| Success (remaining_credits : Z).

Definition status (response : Response) : Z :=
  match response with
  | JsonError status _ => status
  | Success _ => 200
  end.

Definition POST (request : Request) : M Response :=
  try_catch
    (match json request with
     | None => throw "Unexpected end of JSON input"
     | Some body =>
         match truthy (user_id body), amount body with
         | Some user_id, Some amount =>
             if amount =? 0
             then mret (JsonError 400 "User ID and amount are required")
             else
               userData ← select_credits user_id;
               match userData with
               | Row credits =>
                   let currentCredits := int_or (Some credits) 0 in
                   if currentCredits <? amount
                   then mret (JsonError 402 "Insufficient credits")
                   else
                     updateError ← update_credits user_id (currentCredits - amount);
                     if updateError : bool then throw backend_error
                     else
                       insert_transaction
                         {| tx_user_id := user_id; tx_amount := - amount;
                            tx_reason := str_or (reason body) "Credit usage" |};;
                       mret (Success (currentCredits - amount))
               | NoRows | QueryError => throw backend_error
               end
         | _, _ => mret (JsonError 400 "User ID and amount are required")
         end
     end)
    (fun error => mret (JsonError 500 (Error_message_or error "Unknown error"))).

End CreditsDeduct.

(** ** Certificate verification ([src/app/api/pdf-signatures/route.ts]) *)

Module Signatures.

(** A row of [certificate_records], with the columns of the migration that
    bear on validity. *)
Record Certificate := {
  certificate_id : string;
  signer_name : string;
  reason : string;
  document_hash : string;
  created_at : Z;
  expires_at : option Z;
  revoked_at : option Z
}.

(** The form of a verify request: the raw bytes of the file and the
    optional certificate id. *)
Record VerifyForm := {
  file : option string;
  certificateId : option string
}.

(** The [data] of the handler's result, one constructor per object shape. *)
Inductive VerifyData :=
| CertificateNotFound (certificateId : string)
| CertificateChecked (valid : bool) (certificateId signerName : string) (signedAt : Z)
    (reason : string) (hashMatch : bool) (warning : option string)
| SignaturesFound (certificates : list (string * string * Z * string))
| NoSignatures.

(** The [valid] field of the result, where it has one. *)
Definition valid (data : VerifyData) : option bool :=
  match data with
  | CertificateNotFound _ => Some false
  | CertificateChecked valid _ _ _ _ _ _ => Some valid
  | SignaturesFound _ | NoSignatures => None
  end.

Section Verify.

(** [hashDocument]: the SHA-256 digest of the bytes in hexadecimal, computed
    by the platform's [crypto.subtle]. *)
Variable hashDocument : string -> string.

(** [query_failed] says whether the query on [certificate_records] reports
    an error. *)
Definition handleVerifySignature
    (certificate_records : list Certificate) (query_failed : bool) (formData : VerifyForm)
  : Res VerifyData :=
  match file formData with
  | None => Throw "PDF file required"
  | Some arrayBuffer =>
      let documentHash := hashDocument arrayBuffer in
      match truthy (certificateId formData) with
      | Some certificateId =>
          let rows :=
            List.filter (fun c => String.eqb (certificate_id c) certificateId)
              certificate_records in
          match query_failed, rows with
          | false, [cert] =>
              let hashMatch := String.eqb (document_hash cert) documentHash in
              Ok (CertificateChecked hashMatch certificateId (signer_name cert)
                    (created_at cert) (reason cert) hashMatch
                    (if hashMatch then None
                     else Some "Document has been modified since signing"))
          | _, _ => Ok (CertificateNotFound certificateId)
          end
      | None =>
          let certs :=
            if query_failed then []
            else List.filter (fun c => String.eqb (document_hash c) documentHash)
                   certificate_records in
          if (0 <? length certs)%nat
          then Ok (SignaturesFound
                     (map (fun c => (certificate_id c, signer_name c, created_at c, reason c))
                        certs))
          else Ok NoSignatures
      end
  end.

End Verify.

(** Validity as the specification words it, at time [now]: not revoked, not
    expired, and the presented document's hash equals the stored one. *)
Definition spec_valid (now : Z) (cert : Certificate) (presentedHash : string) : bool :=
  negb (bool_decide (is_Some (revoked_at cert))) &&
  negb (match expires_at cert with Some t => t <? now | None => false end) &&
  String.eqb (document_hash cert) presentedHash.

End Signatures.

(** ** Data for worked requests *)

Module Scenario.

Definition page (c : nat) : Page := {| content := c; rotation := 0; overlays := [] |}.

Definition upload (pdf : PDFDocument) : File := {| name := "doc.pdf"; bytes := Some pdf |}.

(** A [deduct_credits] database function that decrements the balance. *)
Definition decrement (user_id : string) (amount : Z)
    (store : gmap string Z * list Transaction)
  : option (gmap string Z * list Transaction) :=
  Some (alter (fun balance => balance - amount) user_id store.1, store.2).

(** A backend with one user, one session and no failures. *)
Definition world (balance : Z) : World :=
  {| user_credits := {[ "alice" := balance ]}; credit_transactions := [];
     sessions := {[ "t0k3n" := "alice" ]}; faults := []; calls := [] |}.

End Scenario.

(** ** More of the credit ledger and its callers *)

(** The result of [getAuthenticatedUser]: [{ user, error: null }] or
    [{ user: null, error }]. *)
Inductive AuthResult :=
| AuthUser (user : string)
| AuthError (error : string).

Definition getAuthenticatedUser (authHeader : option string) : M AuthResult :=
  match authHeader with
  | None => mret (AuthError "No auth token provided")
  | Some authHeader =>
      if negb (Js.startsWith "Bearer " authHeader)
      then mret (AuthError "No auth token provided")
      else
        let token := Js.substring 7 authHeader in
        user ← auth_getUser token;
        match user with
        | None => mret (AuthError "Invalid token")
        | Some user => mret (AuthUser user)
        end
  end.

(** The sum of a user's audit amounts. *)
Definition audit_total (userId : string) (txs : list Transaction) : Z :=
  fold_right Z.add 0
    (map tx_amount (List.filter (fun t => String.eqb (tx_user_id t) userId) txs)).

(** ** The balance route ([GET /api/credits/balance]) *)

Module CreditsBalance.

Inductive Response :=
| JsonError (status : Z) (error : string)
| Balance (credits : Z) (user_id : string).

Definition GET (authorization : option string) : M Response :=
  try_catch
    (match authorization with
     | None => mret (JsonError 401 "Unauthorized - No auth token provided")
     | Some authHeader =>
         if negb (Js.startsWith "Bearer " authHeader)
         then mret (JsonError 401 "Unauthorized - No auth token provided")
         else
           let token := Js.substring 7 authHeader in
           user ← auth_getUser token;
           match user with
           | None => mret (JsonError 401 "Unauthorized - Invalid token")
           | Some userId =>
               '(_, current) ← checkUserCredits userId 0;
               mret (Balance current userId)
           end
     end)
    (fun _ => mret (JsonError 500 "Internal server error. Please try again.")).

End CreditsBalance.

(** The token of an [authorization] header of the form "Bearer <token>", as
    every route extracts it. *)
Definition bearer_token (authorization : option string) : option string :=
  match authorization with
  | Some authHeader =>
      if Js.startsWith "Bearer " authHeader then Some (Js.substring 7 authHeader)
      else None
  | None => None
  end.

(** The pages of a document at the given indices, in the order of the
    indices; an index outside the document selects nothing. *)
Definition pages_at (pdf : PDFDocument) (indices : list Z) : list Page :=
  omap (fun i => if 0 <=? i then pdf !! Z.to_nat i else None) indices.

(** A part of a page-range expression covers the 0-based index [y] when it
    names page [y + 1], as a single page or inside an [a-b] range. *)
Definition covers (part : string) (y : Z) : bool :=
  let trimmed := Js.trim part in
  if Js.includes "-" trimmed then
    match map (fun n => Js.parseInt (Js.trim n)) (Js.split "-" trimmed) with
    | Some start :: Some end_ :: _ => (start <=? y + 1) && (y + 1 <=? end_)
    | _ => false
    end
  else
    match Js.parseInt trimmed with
    | Some num => num =? y + 1
    | None => false
    end.



(** ** Certification ([handleAddCertificate]) *)

Module Certification.

(** The form of an [add_certificate] request: the raw bytes of the file and
    the text fields; the coordinates [x] and [y] only place the drawing. *)
Record CertificateForm := {
  file : option string;
  page : option string;
  signerName : option string;
  reason : option string
}.

Section AddCertificate.

Variable hashDocument : string -> string.

(** The PDF library on raw bytes: the page count of the loaded document
    ([None] when [PDFDocument.load] throws), and the bytes saved after the
    certificate box is drawn on a page with the signer, the reason and the
    certificate id. *)
Variable pageCount : string -> option Z.
Variable stamp : string -> Z -> string -> string -> string -> string.

(** [from('certificate_records').insert(row)]; the result is not looked at.
    [failed] says that the backend refuses the row (no connection, a row
    policy, a column constraint); [certificate_id] is declared UNIQUE, so a
    row with a taken id is not stored either. *)
Definition insert_certificate
    (certificate_records : list Signatures.Certificate) (failed : bool)
    (row : Signatures.Certificate) : list Signatures.Certificate :=
  if failed
     || existsb (fun c => String.eqb (Signatures.certificate_id c)
                            (Signatures.certificate_id row)) certificate_records
  then certificate_records
  else certificate_records ++ [row].

(** [certId] is what [generateCertificateId] draws and [now] the time of
    the request; the result is the saved bytes and the stored rows. *)
Definition handleAddCertificate
    (certificate_records : list Signatures.Certificate) (insert_failed : bool)
    (user_email certId : string) (now : Z) (formData : CertificateForm)
  : Res (string * list Signatures.Certificate) :=
  let page := int_or (page formData ≫= Js.parseInt) 1 in
  let signerName := str_or (signerName formData) user_email in
  let reason := str_or (reason formData) "Document certification" in
  match file formData with
  | None => Throw "PDF file required"
  | Some arrayBuffer =>
      match pageCount arrayBuffer with
      | None => Throw "Failed to parse PDF document"
      | Some count =>
          let pageIndex := page - 1 in
          if (pageIndex <? 0) || (count <=? pageIndex)
          then Throw ("Invalid page number: " +:+ pretty page)
          else
            let row :=
              {| Signatures.certificate_id := certId;
                 Signatures.signer_name := signerName;
                 Signatures.reason := reason;
                 Signatures.document_hash := hashDocument arrayBuffer;
                 Signatures.created_at := now;
                 Signatures.expires_at := None;
                 Signatures.revoked_at := None |} in
            Ok (stamp arrayBuffer page signerName reason certId,
                insert_certificate certificate_records insert_failed row)
      end
  end.

End AddCertificate.

End Certification.
(** * Properties *)

Example parsePageRange_ex1 : parsePageRange "1-3,5,7-9" 8 = [0; 1; 2; 4; 6; 7].
Proof. reflexivity. Qed.

Example parsePageRange_ex2 : parsePageRange " 3 , 1, 3, 2-1, x, 0, 9" 4 = [0; 2].
Proof. reflexivity. Qed.

(** *** Facts about the JavaScript list helpers *)

Section SortFacts.

Lemma insert_sorted_elem x y xs : y ∈ Js.insert_sorted x xs <-> y = x \/ y ∈ xs.
Proof.
  induction xs as [|z zs IH]; simpl.
  - set_solver.
  - destruct (x <? z); set_solver.
Qed.

Lemma insert_sorted_ascending x xs :
  StronglySorted Z.lt xs -> x ∉ xs -> StronglySorted Z.lt (Js.insert_sorted x xs).
Proof.
  induction 1 as [|z zs Hs IH Hz]; intros Hx; simpl.
  - repeat constructor.
  - apply not_elem_of_cons in Hx as [Hxz Hx].
    rewrite Forall_forall in Hz.
    destruct (x <? z) eqn:E.
    + apply Z.ltb_lt in E. constructor; [by constructor; [|apply Forall_forall]|].
      constructor; [done|].
      apply Forall_forall. intros w Hw. specialize (Hz w Hw). lia.
    + apply Z.ltb_ge in E. constructor; [by apply IH|].
      apply Forall_forall. intros w [->|Hw]%insert_sorted_elem; [lia|by apply Hz].
Qed.

Lemma sort_fold_elem y xs acc :
  y ∈ fold_left (fun a x => Js.insert_sorted x a) xs acc <-> y ∈ xs \/ y ∈ acc.
Proof.
  revert acc. induction xs as [|x xs IH]; intros acc; simpl.
  - set_solver.
  - rewrite IH, insert_sorted_elem. set_solver.
Qed.

Lemma sort_fold_ascending xs acc :
  StronglySorted Z.lt acc -> NoDup xs -> (forall x, x ∈ xs -> x ∉ acc) ->
  StronglySorted Z.lt (fold_left (fun a x => Js.insert_sorted x a) xs acc).
Proof.
  revert acc. induction xs as [|x xs IH]; intros acc Hacc Hnd Hdisj; simpl; [done|].
  apply NoDup_cons in Hnd as [Hx Hnd].
  apply IH; [|done|].
  - apply insert_sorted_ascending; [done|]. apply Hdisj. by left.
  - intros y Hy [->|Hin]%insert_sorted_elem; [done|].
    apply (Hdisj y); [by right|done].
Qed.

Lemma sort_numeric_elem y xs : y ∈ Js.sort_numeric xs <-> y ∈ xs.
Proof. unfold Js.sort_numeric. rewrite sort_fold_elem. set_solver. Qed.

Lemma sort_numeric_ascending xs : NoDup xs -> StronglySorted Z.lt (Js.sort_numeric xs).
Proof.
  intros Hnd. apply sort_fold_ascending; [constructor|done|]. set_solver.
Qed.

Lemma new_Set_fold xs seen :
  NoDup seen ->
  let out := fold_left (fun seen x => if existsb (Z.eqb x) seen then seen else seen ++ [x]) xs seen in
  NoDup out /\ (forall y, y ∈ out <-> y ∈ xs \/ y ∈ seen).
Proof.
  revert seen. induction xs as [|x xs IH]; intros seen Hnd; simpl.
  - split; [done|]. set_solver.
  - destruct (existsb (Z.eqb x) seen) eqn:E.
    + destruct (IH seen Hnd) as [H1 H2]. split; [done|].
      intros y. rewrite H2.
      apply existsb_exists in E as (z & Hz%list_elem_of_In & ->%Z.eqb_eq).
      set_solver.
    + assert (x ∉ seen) as Hx.
      { intros Hin%list_elem_of_In. apply not_true_iff_false in E. apply E.
        apply existsb_exists. exists x. split; [done|]. apply Z.eqb_refl. }
      assert (NoDup (seen ++ [x])) as Hnd'.
      { apply NoDup_app. split; [done|]. split; [|apply NoDup_singleton].
        set_solver. }
      destruct (IH _ Hnd') as [H1 H2]. split; [done|].
      intros y. rewrite H2. set_solver.
Qed.

Lemma new_Set_NoDup xs : NoDup (Js.new_Set xs).
Proof. apply (new_Set_fold xs []). constructor. Qed.

Lemma new_Set_elem y xs : y ∈ Js.new_Set xs <-> y ∈ xs.
Proof.
  destruct (new_Set_fold xs [] NoDup_nil_2) as [_ H]. unfold Js.new_Set.
  rewrite H. set_solver.
Qed.

End SortFacts.

(** *** The range loop and the parts of an expression *)

Section ParseFacts.

Lemma range_loop_elem y i end_ totalPages indices :
  y ∈ range_loop i end_ totalPages indices <->
  y ∈ indices \/ (i <= y + 1 /\ 1 <= y + 1 /\ y + 1 <= end_ /\ y + 1 <= totalPages).
Proof.
  funelim (range_loop i end_ totalPages indices).
  - rewrite H. clear H Heqcall.
    destruct (andb_prop _ _ continue) as [H1%Z.leb_le H2%Z.leb_le].
    destruct (1 <=? i) eqn:E; [apply Z.leb_le in E | apply Z.leb_gt in E].
    + rewrite elem_of_app, list_elem_of_singleton. intuition lia.
    + intuition lia.
  - match goal with
    | H : _ = false |- _ => destruct (proj1 (andb_false_iff _ _) H) as [G|G]; apply Z.leb_gt in G
    end; intuition lia.
Qed.

Lemma range_loop_descending i end_ totalPages indices :
  end_ < i -> range_loop i end_ totalPages indices = indices.
Proof.
  intros H. funelim (range_loop i end_ totalPages indices); [|done].
  destruct (andb_prop _ _ continue) as [Hle%Z.leb_le _]. lia.
Qed.

Lemma range_loop_beyond i end_ totalPages indices :
  totalPages < i -> range_loop i end_ totalPages indices = indices.
Proof.
  intros H. funelim (range_loop i end_ totalPages indices); [|done].
  destruct (andb_prop _ _ continue) as [_ Hle%Z.leb_le]. lia.
Qed.

Lemma parse_part_elem y totalPages indices part :
  y ∈ parse_part totalPages indices part -> y ∈ indices \/ 0 <= y < totalPages.
Proof.
  unfold parse_part. destruct (Js.includes _ _).
  - destruct (map _ _) as [|[start|] [|[end_|] ?]]; auto.
    rewrite range_loop_elem. intuition lia.
  - destruct (Js.parseInt _) as [num|]; auto.
    destruct ((1 <=? num) && (num <=? totalPages)) eqn:E; auto.
    apply andb_prop in E as [H1%Z.leb_le H2%Z.leb_le].
    rewrite elem_of_app, list_elem_of_singleton. intuition lia.
Qed.

Lemma parse_parts_elem y totalPages parts indices :
  y ∈ fold_left (parse_part totalPages) parts indices ->
  y ∈ indices \/ 0 <= y < totalPages.
Proof.
  revert indices. induction parts as [|part parts IH]; intros indices; simpl; auto.
  intros [H|H]%IH; auto. by apply parse_part_elem in H.
Qed.

Lemma parsePageRange_elem y range totalPages :
  y ∈ parsePageRange range totalPages -> 0 <= y < totalPages.
Proof.
  unfold parsePageRange. rewrite sort_numeric_elem, new_Set_elem.
  intros [H|H]%parse_parts_elem; [|done]. by apply elem_of_nil in H.
Qed.

Lemma parsePageRange_in_range range totalPages :
  Forall (fun i => 0 <= i < totalPages) (parsePageRange range totalPages).
Proof. apply Forall_forall. intros y. apply parsePageRange_elem. Qed.

Lemma parsePageRange_ascending range totalPages :
  StronglySorted Z.lt (parsePageRange range totalPages).
Proof. apply sort_numeric_ascending, new_Set_NoDup. Qed.

Lemma ascending_NoDup xs : StronglySorted Z.lt xs -> NoDup xs.
Proof.
  induction 1 as [|x xs Hs IH Hx]; constructor; [|done].
  rewrite Forall_forall in Hx. intros Hin. specialize (Hx x Hin). lia.
Qed.

Lemma parsePageRange_NoDup range totalPages : NoDup (parsePageRange range totalPages).
Proof. apply ascending_NoDup, parsePageRange_ascending. Qed.

End ParseFacts.

(** *** Which indices an expression selects *)

Section SelectFacts.

Lemma parse_part_covers y totalPages indices part :
  y ∈ parse_part totalPages indices part <->
  y ∈ indices \/ (0 <= y < totalPages /\ covers part y = true).
Proof.
  unfold parse_part, covers. destruct (Js.includes _ _).
  - destruct (map _ _) as [|[start|] [|[end_|] ?]]; try (intuition congruence).
    rewrite range_loop_elem, andb_true_iff, !Z.leb_le. intuition lia.
  - destruct (Js.parseInt _) as [num|]; [|intuition congruence].
    rewrite Z.eqb_eq.
    destruct ((1 <=? num) && (num <=? totalPages)) eqn:E.
    + apply andb_prop in E as [H1%Z.leb_le H2%Z.leb_le].
      rewrite elem_of_app, list_elem_of_singleton. intuition lia.
    + apply andb_false_iff in E as [E%Z.leb_gt|E%Z.leb_gt]; intuition lia.
Qed.

Lemma parse_parts_covers y totalPages parts : forall indices,
  y ∈ fold_left (parse_part totalPages) parts indices <->
  y ∈ indices \/
  (0 <= y < totalPages /\ exists part, part ∈ parts /\ covers part y = true).
Proof.
  induction parts as [|part parts IH]; intros indices; simpl.
  - split; [auto|]. intros [?|(_ & part & Hp & _)]; [done|]. by apply elem_of_nil in Hp.
  - rewrite IH, parse_part_covers. split.
    + intros [[?|[? ?]]|(? & p & ? & ?)]; [by left| |].
      * right. split; [done|]. exists part. split; [by left|done].
      * right. split; [done|]. exists p. split; [by right|done].
    + intros [?|(? & p & [->|?]%elem_of_cons & ?)]; eauto 8.
Qed.

Lemma parsePageRange_elem_covers (range : string) (totalPages y : Z) :
  y ∈ parsePageRange range totalPages <->
  0 <= y < totalPages /\ exists part, part ∈ Js.split "," range /\ covers part y = true.
Proof.
  unfold parsePageRange. rewrite sort_numeric_elem, new_Set_elem, parse_parts_covers.
  split; [|auto]. intros [Hnil|?]; [|done]. by apply elem_of_nil in Hnil.
Qed.

End SelectFacts.

(** *** The exception monad *)

Lemma Res_bind_Ok {A B} (a : A) (k : A -> Res B) : (Ok a ≫= k) = k a.
Proof. reflexivity. Qed.

Lemma Res_bind_Throw {A B} e (k : A -> Res B) : (Throw e ≫= k) = Throw e.
Proof. reflexivity. Qed.

(** *** Facts about the library model and the page selector *)

Section HandlerFacts.

Lemma truthy_Some s : s <> "" -> truthy (Some s) = Some s.
Proof. by destruct s. Qed.

Lemma getPage_Ok pdf index :
  0 <= index < PdfLib.getPageCount pdf ->
  exists page, pdf !! Z.to_nat index = Some page /\ PdfLib.getPage pdf index = Ok page.
Proof.
  intros [H0 H1]. unfold PdfLib.getPage, PdfLib.getPageCount in *.
  destruct (lookup_lt_is_Some_2 pdf (Z.to_nat index)) as [page Hpage]; [lia|].
  exists page. split; [done|].
  rewrite (proj2 (Z.leb_le _ _) H0), (proj2 (Z.ltb_lt _ _) H1), Hpage. done.
Qed.

Lemma split_nonempty sep s : Js.split sep s <> [].
Proof. destruct s as [|c s]; simpl; [done|]. by repeat case_match. Qed.

Lemma save_nonempty pdf : pdf <> [] -> PdfLib.save pdf = pdf.
Proof. by destruct pdf. Qed.




Lemma range0_elem i n : i ∈ Js.range0 n <-> 0 <= i < n.
Proof.
  unfold Js.range0. rewrite list_elem_of_fmap. split.
  - intros (k & -> & Hk%list_elem_of_In%in_seq). lia.
  - intros H. exists (Z.to_nat i). split; [lia|].
    apply list_elem_of_In, in_seq. lia.
Qed.

Lemma range0_NoDup n : NoDup (Js.range0 n).
Proof.
  unfold Js.range0. apply NoDup_fmap; [apply Nat2Z.inj'|].
  apply NoDup_ListNoDup, seq_NoDup.
Qed.

Lemma filter_NoDup (f : Z -> bool) (l : list Z) : NoDup l -> NoDup (List.filter f l).
Proof. rewrite !NoDup_ListNoDup. apply List.NoDup_filter. Qed.

Lemma filter_elem (f : Z -> bool) (l : list Z) (x : Z) :
  x ∈ List.filter f l <-> x ∈ l /\ f x = true.
Proof. rewrite !list_elem_of_In. apply filter_In. Qed.



Lemma copyPages_Ok pdf indices :
  Forall (fun i => 0 <= i < PdfLib.getPageCount pdf) indices ->
  exists pages,
    PdfLib.copyPages pdf (map Some indices) = Ok pages /\
    length pages = length indices /\
    forall k i, indices !! k = Some i -> pages !! k = pdf !! Z.to_nat i.
Proof.
  induction 1 as [|i rest Hi Hrest (pages & IH & Hlen & Hlook)]; simpl.
  - exists []. repeat split. intros k i H. by rewrite lookup_nil in H.
  - destruct (getPage_Ok pdf i Hi) as (page & Hpage & ->). simpl. rewrite IH. simpl.
    exists (page :: pages). split; [done|]. split; [simpl; congruence|].
    intros [|k] j; simpl; [|apply Hlook]. by intros [= <-].
Qed.

End HandlerFacts.

Section LenientFacts.

Lemma parse_part_dropped totalPages indices part :
  dropped_part totalPages part = true -> parse_part totalPages indices part = indices.
Proof.
  unfold dropped_part, parse_part. destruct (Js.includes _ _).
  - destruct (map _ _) as [|[start|] [|[end_|] ?]]; try done.
    intros [H%Z.ltb_lt|H%Z.ltb_lt]%orb_prop.
    + by apply range_loop_descending.
    + by apply range_loop_beyond.
  - destruct (Js.parseInt _) as [num|]; [|done].
    intros [H%Z.ltb_lt|H%Z.ltb_lt]%orb_prop.
    + by rewrite (proj2 (Z.leb_gt 1 num)) by lia.
    + by rewrite (proj2 (Z.leb_gt num totalPages)), andb_false_r by lia.
Qed.

Lemma parsePageRange_all_dropped range totalPages :
  forallb (dropped_part totalPages) (Js.split "," range) = true ->
  parsePageRange range totalPages = [].
Proof.
  unfold parsePageRange. intros H.
  assert (forall parts indices, forallb (dropped_part totalPages) parts = true ->
            fold_left (parse_part totalPages) parts indices = indices) as Hfold.
  { induction parts as [|part parts IH]; intros indices; simpl; [done|].
    intros [Hp Hps]%andb_prop. rewrite parse_part_dropped by done. by apply IH. }
  by rewrite Hfold.
Qed.

Lemma copyPages_all pdf :
  PdfLib.copyPages pdf (map Some (Js.range0 (PdfLib.getPageCount pdf))) = Ok pdf.
Proof.
  destruct (copyPages_Ok pdf (Js.range0 (PdfLib.getPageCount pdf))) as (pages & -> & Hlen & Hlook).
  { apply Forall_forall. intros i. by rewrite range0_elem. }
  f_equal. unfold Js.range0, PdfLib.getPageCount in *.
  rewrite Nat2Z.id, length_map, length_seq in *.
  apply list_eq. intros k. destruct (decide (k < length pdf)%nat) as [Hk|Hk].
  - rewrite (Hlook k (Z.of_nat k)), Nat2Z.id; [done|].
    rewrite list_lookup_fmap, lookup_seq_lt by done. done.
  - rewrite !lookup_ge_None_2 by lia. done.
Qed.

Lemma forEachPage_nil update pdf : forEachPage update [] pdf = Ok pdf.
Proof. done. Qed.

End LenientFacts.

(** *** What [handleReorderPages] accepts *)

Section ReorderFacts.

(** An order of the right length whose entries are all page numbers of the
    document is accepted, a bijection or not; the output's page [k] is the
    input's page [order[k]]. *)
Lemma handleReorderPages_accepts formData f pdf newOrder order :
  file formData = Some f -> bytes f = Some pdf ->
  get formData "order" = Some newOrder -> newOrder <> "" ->
  map (fun n => Js.parseInt (Js.trim n)) (Js.split "," newOrder) = map Some order ->
  length order = length pdf ->
  Forall (fun p => 1 <= p <= PdfLib.getPageCount pdf) order ->
  exists out,
    handleReorderPages formData = Ok out /\
    length out = length pdf /\
    forall k p, order !! k = Some p -> out !! k = pdf !! Z.to_nat (p - 1).
Proof.
  intros Hfile Hbytes Hget Hne Hparse Hlen Hrange.
  unfold handleReorderPages. rewrite Hfile, Hget, truthy_Some by done.
  unfold PdfLib.load. rewrite Hbytes, Res_bind_Ok.
  assert (map (fun n => (fun k => k - 1) <$> Js.parseInt (Js.trim n))
              (Js.split "," newOrder)
          = map Some (map (fun p => p - 1) order)) as ->.
  { rewrite <- (map_map (fun n => Js.parseInt (Js.trim n)) (fmap (fun k => k - 1))).
    rewrite Hparse, !map_map. done. }
  rewrite !length_map, Hlen. unfold PdfLib.getPageCount at 1. rewrite Z.eqb_refl. simpl negb.
  cbv iota.
  assert (existsb (fun i : option Z => match i with
                     | Some i => (i <? 0) || (PdfLib.getPageCount pdf <=? i)
                     | None => false end)
            (map Some (map (fun p => p - 1) order)) = false) as ->.
  { apply not_true_iff_false. intros (x & Hx & Hbad)%existsb_exists.
    apply in_map_iff in Hx as (i & <- & (p & <- & Hp)%in_map_iff).
    rewrite List.Forall_forall in Hrange. specialize (Hrange p Hp).
    apply orb_prop in Hbad as [?%Z.ltb_lt|?%Z.leb_le]; lia. }
  destruct (copyPages_Ok pdf (map (fun p => p - 1) order)) as (out & -> & Hl & Hlook).
  { rewrite List.Forall_forall in Hrange. apply Forall_forall.
    intros i (p & -> & Hp%list_elem_of_In)%list_elem_of_fmap. specialize (Hrange p Hp). lia. }
  assert (out <> []) as Hout.
  { intros ->. pose proof (split_nonempty "," newOrder) as Hsplit.
    destruct (Js.split "," newOrder); [done|]. by destruct order. }
  exists out. simpl. rewrite save_nonempty by done.
  split; [done|]. split; [by rewrite Hl, length_map|].
  intros k p Hk. apply Hlook. by rewrite list_lookup_fmap, Hk.
Qed.

End ReorderFacts.

(** *** Rotation *)

Section RotateFacts.

Lemma allowed_angle_cases angle :
  In angle allowed_angles ->
  int_or (Some angle) 90 = angle /\ int_or (Some (- angle)) 90 = - angle /\
  existsb (Z.eqb angle) allowed_angles = true /\
  existsb (Z.eqb (- angle)) allowed_angles = true.
Proof.
  unfold allowed_angles. simpl.
  intros [<-|[<-|[<-|[<-|[<-|[<-|[]]]]]]]; done.
Qed.

Lemma handleRotate_run formData f pdf :
  let angle := int_or (get formData "angle" ≫= Js.parseInt) 90 in
  In angle allowed_angles ->
  file formData = Some f -> bytes f = Some pdf ->
  handleRotate formData =
  (rotated ← forEachPage (fun page => PdfLib.setRotation (rotation page + angle) page)
     (selectPages (str_or (get formData "pages") "all") (PdfLib.getPageCount pdf)) pdf;
   Ok (PdfLib.save rotated)).
Proof.
  intros angle Hangle Hfile Hbytes. unfold handleRotate. fold angle.
  destruct (allowed_angle_cases angle Hangle) as (_ & _ & Hin & _).
  rewrite Hfile, Hin. simpl negb. cbv iota.
  unfold PdfLib.load. by rewrite Hbytes, Res_bind_Ok.
Qed.

Lemma str_or_Some s d : s <> "" -> str_or (Some s) d = s.
Proof. by destruct s. Qed.











End RotateFacts.

(** * The claims about the page handlers *)

(** C4. For every valid page-range expression (a comma-separated list of
    1-indexed single pages and a-b inclusive ranges) and every page count,
    [parsePageRange] returns a strictly ascending, duplicate-free sequence of
    integers, each within [0, totalPages). *)
Theorem parsePageRange_valid_ascending (range : string) (totalPages : Z) :
  valid_page_range range = true ->
  StronglySorted Z.lt (parsePageRange range totalPages) /\
  NoDup (parsePageRange range totalPages) /\
  Forall (fun i => 0 <= i < totalPages) (parsePageRange range totalPages).
Proof.
  intros _. split; [apply parsePageRange_ascending|].
  split; [apply parsePageRange_NoDup | apply parsePageRange_in_range].
Qed.

Lemma parsePageRange_valid_ascending_witness :
  valid_page_range "1-3,5, 7-9,2" = true /\
  parsePageRange "1-3,5, 7-9,2" 8 = [0; 1; 2; 4; 6; 7] /\
  StronglySorted Z.lt (parsePageRange "1-3,5, 7-9,2" 8) /\
  NoDup (parsePageRange "1-3,5, 7-9,2" 8) /\
  Forall (fun i => 0 <= i < 8) (parsePageRange "1-3,5, 7-9,2" 8).
Proof.
  split; [reflexivity|]. split; [reflexivity|].
  apply (parsePageRange_valid_ascending "1-3,5, 7-9,2" 8). reflexivity.
Defined.

(** C5 (the code departs from the claim). [handleReorderPages] checks the
    length of the order and that every entry is a page number of the
    document, and nothing else: on a two-page document the order "1,1",
    which is not a bijection onto [1, 2], is accepted and yields the first
    page twice. *)
Theorem handleReorderPages_duplicate_accepted :
  let p1 := {| content := 1; rotation := 0; overlays := [] |} in
  let p2 := {| content := 2; rotation := 0; overlays := [] |} in
  handleReorderPages
    {| file := Some {| name := "doc.pdf"; bytes := Some [p1; p2] |};
       files := [];
       fields := {[ "order" := "1,1" ]} |}
  = Ok [p1; p1].
Proof. vm_compute. reflexivity. Qed.




(** C10. [parsePageRange] is total and lenient: for every string and every
    page count it returns indices within [0, totalPages); an expression all
    of whose parts are non-numeric, out of bounds or descending selects
    nothing, with no error; and the handlers then act on the empty selection
    without complaint: extract copies no page and saves the empty document
    (which the library writes with one blank page), delete (on a document
    that has pages) saves every page, and rotate and watermark save the
    document unchanged. *)
Theorem parsePageRange_total_lenient (range : string) (totalPages : Z) :
  (exists indices, parsePageRange range totalPages = indices /\
                   Forall (fun i => 0 <= i < totalPages) indices) /\
  (forallb (dropped_part totalPages) (Js.split "," range) = true ->
   parsePageRange range totalPages = []) /\
  (parsePageRange "0" totalPages = [] /\ parsePageRange "abc" totalPages = [] /\
   parsePageRange "5-3" totalPages = [] /\ parsePageRange "x-2, ,7-" totalPages = [] /\
   parsePageRange "7" 6 = []) /\
  (forall (formData : FormData) (f : File) (pdf : PDFDocument),
     file formData = Some f -> bytes f = Some pdf ->
     PdfLib.getPageCount pdf = totalPages ->
     range <> "" -> parsePageRange range totalPages = [] ->
     (get formData "range" = Some range ->
      handleExtractPages formData = Ok (PdfLib.save [])) /\
     (get formData "pages" = Some range -> pdf <> [] ->
      handleDeletePages formData = Ok pdf) /\
     (get formData "pages" = Some range -> is_keyword range = false ->
      In (int_or (get formData "angle" ≫= Js.parseInt) 90) allowed_angles ->
      handleRotate formData = Ok (PdfLib.save pdf)) /\
     (get formData "pages" = Some range -> is_keyword range = false ->
      handleWatermark formData = Ok (PdfLib.save pdf))).
Proof.
  split; [eexists; split; [reflexivity|apply parsePageRange_in_range]|].
  split; [apply parsePageRange_all_dropped|].
  split.
  { repeat split; apply parsePageRange_all_dropped; reflexivity. }
  intros formData f pdf Hfile Hbytes Hcount Hne Hempty.
  assert (forall pages, is_keyword pages = false ->
            selectPages pages totalPages = parsePageRange pages totalPages) as Hsel.
  { intros pages Hk. unfold is_keyword in Hk. unfold selectPages.
    apply orb_false_elim in Hk as [[-> ->]%orb_false_elim ->]. done. }
  repeat split.
  - intros Hget. unfold handleExtractPages.
    rewrite Hfile, Hget, truthy_Some by done.
    unfold PdfLib.load. rewrite Hbytes, Res_bind_Ok, Hcount, Hempty. done.
  - intros Hget Hpdf. unfold handleDeletePages.
    rewrite Hfile, Hget, truthy_Some by done.
    unfold PdfLib.load. rewrite Hbytes, Res_bind_Ok, Hcount, Hempty. simpl existsb.
    rewrite <- Hcount.
    assert (List.filter (fun i : Z => negb false) (Js.range0 (PdfLib.getPageCount pdf))
            = Js.range0 (PdfLib.getPageCount pdf)) as ->.
    { generalize (Js.range0 (PdfLib.getPageCount pdf)).
      induction l as [|x l IH]; [done|]. simpl. by f_equal. }
    destruct (length (Js.range0 (PdfLib.getPageCount pdf)) =? 0)%nat eqn:E.
    + apply Nat.eqb_eq in E. unfold Js.range0, PdfLib.getPageCount in E.
      rewrite length_map, length_seq, Nat2Z.id in E. by destruct pdf.
    + by rewrite copyPages_all, Res_bind_Ok, save_nonempty.
  - intros Hget Hk Hangle.
    rewrite (handleRotate_run _ f pdf Hangle Hfile Hbytes).
    by rewrite Hget, str_or_Some, Hcount, Hsel, Hempty.
  - intros Hget Hk. unfold handleWatermark. rewrite Hfile.
    unfold PdfLib.load. rewrite Hbytes, Res_bind_Ok.
    destruct (hexToRgbValues _) as [[r g] b].
    by rewrite Hget, str_or_Some, Hcount, Hsel, Hempty.
Qed.

Lemma parsePageRange_total_lenient_witness :
  let pdf := [{| content := 1; rotation := 0; overlays := [] |};
              {| content := 2; rotation := 0; overlays := [] |}] in
  let request key :=
    {| file := Some {| name := "doc.pdf"; bytes := Some pdf |};
       files := [];
       fields := {[ key := "5-3,x,0,9" ]} |} in
  parsePageRange "5-3,x,0,9" 2 = [] /\
  handleExtractPages (request "range") = Ok [PdfLib.blank_page] /\
  handleDeletePages (request "pages") = Ok pdf /\
  handleRotate (request "pages") = Ok pdf /\
  handleWatermark (request "pages") = Ok pdf.
Proof.
  intros pdf request.
  destruct (parsePageRange_total_lenient "5-3,x,0,9" 2) as (_ & Hdrop & _ & Hdown).
  assert (parsePageRange "5-3,x,0,9" 2 = []) as Hempty by (apply Hdrop; reflexivity).
  split; [exact Hempty|].
  destruct (Hdown (request "range") {| name := "doc.pdf"; bytes := Some pdf |} pdf
              eq_refl eq_refl eq_refl ltac:(discriminate) Hempty) as (Hextract & _).
  destruct (Hdown (request "pages") {| name := "doc.pdf"; bytes := Some pdf |} pdf
              eq_refl eq_refl eq_refl ltac:(discriminate) Hempty)
    as (_ & Hdelete & Hrotate & Hmark).
  split; [exact (Hextract eq_refl)|].
  split; [apply (Hdelete eq_refl); discriminate|].
  split; [apply (Hrotate eq_refl eq_refl); simpl; tauto|].
  exact (Hmark eq_refl eq_refl).
Defined.

(** * The credit ledger *)

Section LedgerFacts.

Lemma int_or_0 (z : Z) : int_or (Some z) 0 = z.
Proof. by destruct z. Qed.

Lemma alter_restore (m : gmap string Z) (k : string) (v v' : Z) :
  m !! k = Some v -> alter (fun _ => v) k (alter (fun _ => v') k m) = m.
Proof.
  intros H. apply map_eq. intros j. destruct (decide (k = j)) as [<-|Hne].
  - by rewrite !lookup_alter_eq, H.
  - by rewrite !lookup_alter_ne.
Qed.

End LedgerFacts.

(** C1. When the stored balance is below the cost, [deductCreditsAtomic]
    only reads: it changes no balance, appends no audit row and issues no
    call besides the select; when that select succeeds it returns the
    failure result that carries the current balance. *)
Theorem deductCreditsAtomic_insufficient
    (w : World) (userId reason : string) (amount balance : Z) :
  user_credits w !! userId = Some balance ->
  balance < amount ->
  let result := run (deductCreditsAtomic userId amount reason) w in
  user_credits result.2 = user_credits w /\
  credit_transactions result.2 = credit_transactions w /\
  calls result.2 = calls w ++ [SelectCredits userId] /\
  (hd false (faults w) = false ->
   result.1 = Ok {| success := false; error := Some "Insufficient credits";
                    remaining := balance; required := Some amount |}).
Proof.
  intros Hrow Hlt. unfold deductCreditsAtomic, checkUserCredits, select_credits.
  cbn. destruct (hd false (faults w)); cbn.
  - done.
  - rewrite Hrow. cbn. rewrite int_or_0, (proj2 (Z.leb_gt amount balance)) by done.
    cbn. done.
Qed.

Lemma deductCreditsAtomic_insufficient_witness :
  let w := {| user_credits := {[ "alice" := 1 ]}; credit_transactions := [];
              sessions := ∅; faults := []; calls := [] |} in
  let result := run (deductCreditsAtomic "alice" 3 "PDF merge") w in
  user_credits result.2 = {[ "alice" := 1 ]} /\
  credit_transactions result.2 = [] /\
  calls result.2 = [SelectCredits "alice"] /\
  result.1 = Ok {| success := false; error := Some "Insufficient credits";
                   remaining := 1; required := Some 3 |}.
Proof.
  intros w result.
  destruct (deductCreditsAtomic_insufficient w "alice" "PDF merge" 3 1)
    as (H1 & H2 & H3 & H4); [reflexivity | lia |].
  split; [exact H1|]. split; [exact H2|]. split; [exact H3|]. exact (H4 eq_refl).
Defined.

(** C2. With no backend failure, [deductCreditsAtomic] on a balance that
    covers the cost reports success with [remaining = balance - amount],
    stores that balance and appends the audit row; a [checkUserCredits] read
    made right after it returns [balance - amount]. *)
Theorem deductCreditsAtomic_then_read
    (w : World) (userId reason : string) (amount balance : Z) :
  user_credits w !! userId = Some balance ->
  amount <= balance ->
  fault_free 4 w = true ->
  let settled := run (deductCreditsAtomic userId amount reason) w in
  let read := run (checkUserCredits userId 0) settled.2 in
  settled.1 = Ok {| success := true; error := None;
                    remaining := balance - amount; required := None |} /\
  user_credits settled.2 !! userId = Some (balance - amount) /\
  credit_transactions settled.2 =
    credit_transactions w ++
      [{| tx_user_id := userId; tx_amount := - amount; tx_reason := reason |}] /\
  read.1 = Ok (0 <=? balance - amount, balance - amount) /\
  user_credits read.2 = user_credits settled.2.
Proof.
  intros Hrow Hle Hfree.
  unfold deductCreditsAtomic, checkUserCredits, select_credits, update_credits,
    insert_transaction, fault_free in *.
  destruct (faults w) as [|[] [|[] [|[] [|[] ?]]]] eqn:Hfaults; try discriminate;
    cbn; rewrite Hfaults; cbn; rewrite Hrow; cbn;
    rewrite int_or_0, (proj2 (Z.leb_le amount balance)) by done; cbn;
    rewrite ?Hfaults; cbn; rewrite lookup_alter_eq, Hrow; cbn; rewrite int_or_0; done.
Qed.

Lemma deductCreditsAtomic_then_read_witness :
  let w := {| user_credits := {[ "alice" := 10 ]}; credit_transactions := [];
              sessions := ∅; faults := []; calls := [] |} in
  let settled := run (deductCreditsAtomic "alice" 3 "PDF compress") w in
  let read := run (checkUserCredits "alice" 0) settled.2 in
  settled.1 = Ok {| success := true; error := None; remaining := 7; required := None |} /\
  read.1 = Ok (true, 7).
Proof.
  intros w settled read.
  destruct (deductCreditsAtomic_then_read w "alice" "PDF compress" 3 10)
    as (H1 & _ & _ & H4 & _); [reflexivity | lia | reflexivity |].
  split; [exact H1 | exact H4].
Defined.

(** C3. When the balance covers the cost, the decrement succeeds and the
    audit insert fails, [deductCreditsAtomic] issues the write of the
    pre-deduction balance as its last call and returns a failure result with
    that balance; no audit row is added, and when the compensating write goes
    through the stored balances are as before the call. *)
Theorem deductCreditsAtomic_compensates
    (w : World) (userId reason : string) (amount balance : Z) :
  user_credits w !! userId = Some balance ->
  amount <= balance ->
  firstn 3 (faults w) = [false; false; true] ->
  let result := run (deductCreditsAtomic userId amount reason) w in
  (exists message,
     result.1 = Ok {| success := false; error := Some message;
                      remaining := balance; required := None |}) /\
  calls result.2 =
    calls w ++
      [SelectCredits userId;
       UpdateCredits userId (balance - amount);
       InsertTransaction
         {| tx_user_id := userId; tx_amount := - amount; tx_reason := reason |};
       UpdateCredits userId balance] /\
  credit_transactions result.2 = credit_transactions w /\
  (hd false (skipn 3 (faults w)) = false -> user_credits result.2 = user_credits w) /\
  (hd false (skipn 3 (faults w)) = true ->
   user_credits result.2 !! userId = Some (balance - amount)).
Proof.
  intros Hrow Hle Hfaults.
  unfold deductCreditsAtomic, checkUserCredits, select_credits, update_credits,
    insert_transaction.
  destruct (faults w) as [|f1 [|f2 [|f3 rest]]] eqn:E; try discriminate.
  injection Hfaults as -> -> ->.
  cbn. rewrite E. cbn. rewrite Hrow. cbn.
  rewrite int_or_0, (proj2 (Z.leb_le amount balance)) by done. cbn.
  rewrite ?E. cbn.
  destruct rest as [|[] rest]; cbn;
    (split; [by eexists|]); rewrite <- ?app_assoc; (split; [done|]); (split; [done|]);
    split; intros; try discriminate; try done;
    rewrite ?lookup_alter_eq, ?Hrow; try done; by apply alter_restore.
Qed.

Lemma deductCreditsAtomic_compensates_witness :
  let w := {| user_credits := {[ "alice" := 10 ]}; credit_transactions := [];
              sessions := ∅; faults := [false; false; true]; calls := [] |} in
  let result := run (deductCreditsAtomic "alice" 3 "PDF compress") w in
  (exists message,
     result.1 = Ok {| success := false; error := Some message;
                      remaining := 10; required := None |}) /\
  calls result.2 =
    [SelectCredits "alice"; UpdateCredits "alice" 7;
     InsertTransaction
       {| tx_user_id := "alice"; tx_amount := -3; tx_reason := "PDF compress" |};
     UpdateCredits "alice" 10] /\
  credit_transactions result.2 = [] /\
  user_credits result.2 = {[ "alice" := 10 ]}.
Proof.
  intros w result.
  destruct (deductCreditsAtomic_compensates w "alice" "PDF compress" 3 10)
    as (H1 & H2 & H3 & H4 & _); [reflexivity | lia | reflexivity |].
  split; [exact H1|]. split; [exact H2|]. split; [exact H3|]. exact (H4 eq_refl).
Defined.

(** * Computations over the datastore *)

Section BehavesFacts.

Context {A B : Type}.

Lemma run_bind (m : M A) (k : A -> M B) w :
  run (m ≫= k) w =
  match run m w with
  | (Ok a, w') => run (k a) w'
  | (Throw e, w') => (Throw e, w')
  end.
Proof. reflexivity. Qed.

Lemma run_try_catch (body : M A) (handler : Thrown -> M A) w :
  run (try_catch body handler) w =
  match run body w with
  | (Ok a, w') => (Ok a, w')
  | (Throw e, w') => run (handler e) w'
  end.
Proof. reflexivity. Qed.

Lemma behaves_ret charging (P : A -> Prop) (a : A) : P a -> behaves charging P (mret a).
Proof.
  intros HP w. cbn. split; [exists []; by rewrite app_nil_r|].
  split; [done|]. by intros ? [= <-].
Qed.

Lemma behaves_throw charging (P : A -> Prop) message : behaves charging P (throw message).
Proof.
  intros w. cbn. split; [exists []; by rewrite app_nil_r|]. done.
Qed.

Lemma behaves_lift charging (P : A -> Prop) (r : Res A) :
  (forall a, r = Ok a -> P a) -> behaves charging P (lift r).
Proof.
  intros HP w. cbn. split; [exists []; by rewrite app_nil_r|]. done.
Qed.

Lemma behaves_bind charging (P : A -> Prop) (Q : B -> Prop) (m : M A) (k : A -> M B) :
  behaves charging P m ->
  (forall a, P a -> behaves charging Q (k a)) ->
  behaves charging Q (m ≫= k).
Proof.
  intros Hm Hk w. rewrite run_bind. destruct (Hm w) as ((t1 & Hc1 & Hq1) & Hs1 & HP).
  destruct (run m w) as [[a|e] w1] eqn:E; simpl in *.
  - destruct (Hk a (HP a eq_refl) w1) as ((t2 & Hc2 & Hq2) & Hs2 & HQ).
    split; [|split; [|done]].
    + exists (t1 ++ t2). rewrite Hc2, Hc1, app_assoc. split; [done|].
      intros Hq. by rewrite existsb_app, Hq1, Hq2.
    + intros Hq. destruct (Hs1 Hq), (Hs2 Hq). split; congruence.
  - split; [by exists t1|]. done.
Qed.

Lemma behaves_try_catch charging (P : A -> Prop) (body : M A) (handler : Thrown -> M A) :
  behaves charging P body ->
  (forall message, behaves charging P (handler message)) ->
  behaves charging P (try_catch body handler).
Proof.
  intros Hm Hk w. rewrite run_try_catch. destruct (Hm w) as ((t1 & Hc1 & Hq1) & Hs1 & HP).
  destruct (run body w) as [[a|e] w1] eqn:E; simpl in *.
  - split; [by exists t1|]. split; [done|]. intros ? [= <-]. by apply HP.
  - destruct (Hk e w1) as ((t2 & Hc2 & Hq2) & Hs2 & HQ).
    split; [|split; [|done]].
    + exists (t1 ++ t2). rewrite Hc2, Hc1, app_assoc. split; [done|].
      intros Hq. by rewrite existsb_app, Hq1, Hq2.
    + intros Hq. destruct (Hs1 Hq), (Hs2 Hq). split; congruence.
Qed.

Lemma behaves_weaken charging (P Q : A -> Prop) (m : M A) :
  (forall a, P a -> Q a) -> behaves charging P m -> behaves charging Q m.
Proof.
  intros HPQ Hm w. destruct (Hm w) as (? & ? & HP).
  split; [done|]. split; [done|]. intros a Ha. by apply HPQ, HP.
Qed.

End BehavesFacts.

Section PrimitiveFacts.

Lemma behaves_backend_call charging c :
  (charging = false -> is_charge c = false) ->
  behaves charging (fun _ => True) (backend_call c).
Proof.
  intros Hc w. cbn. split; [|done]. exists [c]. split; [done|].
  intros Hq. simpl. by rewrite (Hc Hq).
Qed.

Lemma behaves_get_world charging : behaves charging (fun _ => True) get_world.
Proof. intros w. cbn. split; [exists []; by rewrite app_nil_r|]. done. Qed.

Lemma behaves_modify_store credits txs :
  behaves true (fun _ => True) (modify_store (set_store credits txs)).
Proof. intros w. cbn. split; [exists []; by rewrite app_nil_r|]. done. Qed.

Lemma behaves_auth_getUser charging token :
  behaves charging (fun _ => True) (auth_getUser token).
Proof.
  unfold auth_getUser.
  eapply behaves_bind; [by apply behaves_backend_call|]. intros [] _.
  - by apply behaves_ret.
  - eapply behaves_bind; [apply behaves_get_world|]. intros ? _. by apply behaves_ret.
Qed.

Lemma behaves_select_credits charging user_id :
  behaves charging (fun _ => True) (select_credits user_id).
Proof.
  unfold select_credits.
  eapply behaves_bind; [by apply behaves_backend_call|]. intros [] _.
  - by apply behaves_ret.
  - eapply behaves_bind; [apply behaves_get_world|]. intros ? _. by apply behaves_ret.
Qed.

Lemma behaves_insert_transaction t :
  behaves true (fun _ => True) (insert_transaction t).
Proof.
  unfold insert_transaction.
  eapply behaves_bind; [by apply behaves_backend_call|]. intros [] _.
  - by apply behaves_ret.
  - eapply behaves_bind; [apply behaves_get_world|]. intros ? _.
    eapply behaves_bind; [apply behaves_modify_store|]. intros ? _. by apply behaves_ret.
Qed.

End PrimitiveFacts.

(** * The PDF operations route *)

Section RouteFacts.

Import PdfOperations.

Variable deduct_credits :
  string -> Z -> gmap string Z * list Transaction ->
  option (gmap string Z * list Transaction).

Lemma behaves_rpc_deduct_credits user_id amount :
  behaves true (fun _ => True) (rpc_deduct_credits deduct_credits user_id amount).
Proof.
  unfold rpc_deduct_credits.
  eapply behaves_bind; [by apply behaves_backend_call|]. intros [] _.
  - by apply behaves_ret.
  - eapply behaves_bind; [apply behaves_get_world|]. intros w _.
    destruct (deduct_credits _ _ _) as [[credits txs]|]; [|by apply behaves_ret].
    eapply behaves_bind; [apply behaves_modify_store|]. intros ? _. by apply behaves_ret.
Qed.

Lemma behaves_deductCredits userId operation cost :
  behaves true (fun _ => True) (deductCredits deduct_credits userId operation cost).
Proof.
  unfold deductCredits.
  eapply behaves_bind; [apply behaves_rpc_deduct_credits|]. intros [] _.
  - apply behaves_throw.
  - eapply behaves_bind; [apply behaves_insert_transaction|]. intros ? _.
    by apply behaves_ret.
Qed.

Lemma behaves_authenticateAndCheckCredits charging request cost :
  behaves charging
    (fun r => match r with
              | inr response => status response = 401 \/ status response = 402
              | inl _ => True
              end)
    (authenticateAndCheckCredits request cost).
Proof.
  unfold authenticateAndCheckCredits.
  destruct (authorization request) as [authHeader|]; [|apply behaves_ret; by left].
  destruct (negb _); [apply behaves_ret; by left|].
  eapply behaves_bind; [apply behaves_auth_getUser|].
  intros [userId|] _; [|apply behaves_ret; by left].
  eapply behaves_bind; [apply behaves_select_credits|]. intros selected _.
  destruct cost as [cost|]; [|by apply behaves_ret].
  destruct (_ <? cost); apply behaves_ret; [by right|done].
Qed.

Lemma dispatch_has_cost operation handler :
  dispatch operation = Some handler -> exists cost, lookup_cost operation = Cost cost.
Proof.
  unfold dispatch.
  repeat (destruct (String.eqb operation _) eqn:E;
          [apply String.eqb_eq in E; subst operation; intros _; by eexists|clear E]).
  done.
Qed.

Lemma POST_behaves charging request :
  (charging = false -> forall pdf, outcome request <> Some (Ok pdf)) ->
  behaves charging
    (fun response => forall message, outcome request = Some (Throw message) ->
       status response = 401 \/ status response = 402 \/ status response = 500)
    (POST deduct_credits request).
Proof.
  intros Hquiet. unfold POST, outcome in *.
  apply behaves_try_catch; [|intros; apply behaves_ret; intros; simpl; tauto].
  destruct (operation request) as [[|c op]|]; [| |by apply behaves_ret].
  { apply behaves_ret. intros message. by destruct (body request). }
  destruct (lookup_cost (String c op)) as [cost| |] eqn:Hcost.
  - eapply behaves_bind; [apply behaves_authenticateAndCheckCredits|].
    intros [userId|response] Hauth; [|apply behaves_ret; intros; tauto].
    destruct (body request) as [formData|]; [|apply behaves_throw].
    destruct (dispatch (String c op)) as [handler|]; [|by apply behaves_ret].
    eapply behaves_bind; [apply (behaves_lift _ (fun pdf => handler formData = Ok pdf)); done|].
    intros pdf Hok. destruct charging.
    + eapply behaves_bind; [apply behaves_deductCredits|]. intros ? _.
      apply behaves_ret. intros message. rewrite Hok. done.
    + by destruct (Hquiet eq_refl pdf); f_equal.
  - eapply behaves_bind; [apply behaves_authenticateAndCheckCredits|].
    intros [userId|response] Hauth; [|apply behaves_ret; intros; tauto].
    destruct (body request) as [formData|]; [|apply behaves_throw].
    destruct (dispatch (String c op)) as [handler|] eqn:Hd; [|by apply behaves_ret].
    apply dispatch_has_cost in Hd as [? Hd]. congruence.
  - apply behaves_ret. intros message.
    destruct (body request); [|done].
    destruct (dispatch _) eqn:Hd; [|done].
    apply dispatch_has_cost in Hd as [? Hd]. congruence.
Qed.

Lemma POST_returns request w :
  exists response, (run (POST deduct_credits request) w).1 = Ok response.
Proof.
  unfold POST. rewrite run_try_catch.
  destruct (run _ w) as [[response|message] w']; simpl; by eexists.
Qed.

(** C8. [POST] never charges for a failed transform.  It always answers
    with a response; a charging call (the [deduct_credits] call or the audit
    insert) occurs only in a request whose handler returned a document; and
    when the handler throws, the response is an error (401, 402 or 500), no
    charging call is made and the balances and audit rows are untouched. *)
Theorem POST_charges_only_after_handler_success (request : Request) (w : World) :
  let result := run (POST deduct_credits request) w in
  exists response trace,
    result.1 = Ok response /\
    calls result.2 = calls w ++ trace /\
    (existsb is_charge trace = true -> exists pdf, outcome request = Some (Ok pdf)) /\
    (forall message, outcome request = Some (Throw message) ->
       (status response = 401 \/ status response = 402 \/ status response = 500) /\
       existsb is_charge trace = false /\
       user_credits result.2 = user_credits w /\
       credit_transactions result.2 = credit_transactions w).
Proof.
  intros result. subst result.
  destruct (POST_returns request w) as [response Hresponse].
  destruct (POST_behaves true request ltac:(done) w) as ((trace & Htrace & _) & _ & Hstatus).
  exists response, trace. split; [done|]. split; [done|].
  assert ((forall pdf, outcome request <> Some (Ok pdf)) ->
          existsb is_charge trace = false /\
          user_credits (run (POST deduct_credits request) w).2 = user_credits w /\
          credit_transactions (run (POST deduct_credits request) w).2
            = credit_transactions w) as Hquiet.
  { intros Hno.
    destruct (POST_behaves false request (fun _ => Hno) w)
      as ((trace' & Htrace' & Hnone) & Hstore & _).
    rewrite Htrace in Htrace'. apply app_inv_head in Htrace' as ->.
    split; [by apply Hnone|by apply Hstore]. }
  split.
  - intros Hcharge. destruct (outcome request) as [[pdf|message]|] eqn:Hout;
      [by exists pdf|..]; destruct Hquiet as [Hq _]; congruence.
  - intros message Hout. split; [by apply (Hstatus response Hresponse message)|].
    apply Hquiet. intros pdf. congruence.
Qed.

End RouteFacts.

Lemma POST_charges_only_after_handler_success_witness :
  let deduct_credits :=
    fun (user_id : string) (amount : Z) (store : gmap string Z * list Transaction) =>
      Some (alter (fun balance => balance - amount) user_id store.1, store.2) in
  let request :=
    {| PdfOperations.operation := Some "merge";
       PdfOperations.authorization := Some "Bearer t0k3n";
       PdfOperations.body :=
         Some {| file := None;
                 files := [{| name := "a.pdf"; bytes := Some [] |}];
                 fields := ∅ |} |} in
  let w := {| user_credits := {[ "alice" := 10 ]}; credit_transactions := [];
              sessions := {[ "t0k3n" := "alice" ]}; faults := []; calls := [] |} in
  let result := run (PdfOperations.POST deduct_credits request) w in
  PdfOperations.outcome request = Some (Throw "At least 2 PDF files required for merge") /\
  result.1 = Ok (PdfOperations.JsonError 500 "At least 2 PDF files required for merge" None) /\
  user_credits result.2 = {[ "alice" := 10 ]} /\
  credit_transactions result.2 = [].
Proof.
  intros deduct_credits request w result.
  destruct (POST_charges_only_after_handler_success deduct_credits request w)
    as (response & trace & Hresponse & _ & _ & Hfail).
  destruct (Hfail "At least 2 PDF files required for merge" eq_refl)
    as (_ & _ & Hcredits & Htxs).
  split; [reflexivity|]. split; [vm_compute; reflexivity|].
  split; [exact Hcredits | exact Htxs].
Defined.

(** * The credits deduction route *)

Section CreditsDeductFacts.

Import CreditsDeduct.

(** The answer and the effect of the route do not depend on the
    [authorization] header. *)
Lemma POST_ignores_authorization (header header' : option string) (body : option Body) :
  POST {| authorization := header; json := body |} =
  POST {| authorization := header'; json := body |}.
Proof. reflexivity. Qed.

(** For a caller that names a user with a row, the route answers 402 on an
    insufficient balance and otherwise, with no backend failure, deducts and
    answers with the remaining credits. *)
Lemma POST_deducts (w : World) header user amount why balance :
  user <> "" -> amount <> 0 ->
  user_credits w !! user = Some balance ->
  fault_free 3 w = true ->
  let result :=
    run (POST {| authorization := header;
                 json := Some {| user_id := Some user; amount := Some amount;
                                 reason := why |} |}) w in
  if balance <? amount
  then result.1 = Ok (JsonError 402 "Insufficient credits") /\
       user_credits result.2 = user_credits w /\
       credit_transactions result.2 = credit_transactions w
  else result.1 = Ok (Success (balance - amount)) /\
       user_credits result.2 !! user = Some (balance - amount).
Proof.
  intros Huser Hamount Hrow Hfree.
  unfold POST, select_credits, update_credits, insert_transaction, fault_free in *.
  cbn. rewrite truthy_Some by done. rewrite (proj2 (Z.eqb_neq amount 0)) by done.
  destruct (faults w) as [|[] [|[] [|[] ?]]] eqn:Hfaults; try discriminate;
    cbn; rewrite Hfaults; cbn; rewrite Hrow; cbn; rewrite int_or_0;
    destruct (balance <? amount); cbn; rewrite ?Hfaults; cbn;
    rewrite ?lookup_alter_eq, ?Hrow; done.
Qed.

End CreditsDeductFacts.

(** C9 (the code departs from the claim). The route checks no bearer token:
    a request with no [authorization] header that names a user in its body
    is answered with success, and that user's stored balance is decremented
    and an audit row written. *)
Theorem credits_deduct_POST_unauthenticated :
  let w := {| user_credits := {[ "alice" := 10 ]}; credit_transactions := [];
              sessions := ∅; faults := []; calls := [] |} in
  let request :=
    {| CreditsDeduct.authorization := None;
       CreditsDeduct.json :=
         Some {| CreditsDeduct.user_id := Some "alice";
                 CreditsDeduct.amount := Some 5;
                 CreditsDeduct.reason := Some "PDF Document Saved" |} |} in
  let result := run (CreditsDeduct.POST request) w in
  result.1 = Ok (CreditsDeduct.Success 5) /\
  user_credits result.2 !! "alice" = Some 5 /\
  credit_transactions result.2 =
    [{| tx_user_id := "alice"; tx_amount := -5; tx_reason := "PDF Document Saved" |}] /\
  calls result.2 =
    [SelectCredits "alice"; UpdateCredits "alice" 5;
     InsertTransaction
       {| tx_user_id := "alice"; tx_amount := -5; tx_reason := "PDF Document Saved" |}].
Proof. vm_compute. repeat split; reflexivity. Qed.

(** * Certificate verification *)

Section VerifyFacts.

Import Signatures.

Variable hashDocument : string -> string.

(** What the handler computes for a certificate that is found: [valid] is
    the hash comparison and nothing else. *)
Lemma handleVerifySignature_valid records bytes id cert :
  id <> "" ->
  List.filter (fun c => String.eqb (certificate_id c) id) records = [cert] ->
  valid <$> (match handleVerifySignature hashDocument records false
                     {| file := Some bytes; certificateId := Some id |} with
             | Ok data => Some data
             | Throw _ => None
             end)
  = Some (Some (String.eqb (document_hash cert) (hashDocument bytes))).
Proof.
  intros Hid Hrows. unfold handleVerifySignature. simpl file. simpl certificateId.
  rewrite truthy_Some by done. rewrite Hrows. done.
Qed.

(** A presented document whose hash differs from the stored one is never
    reported valid. *)
Lemma handleVerifySignature_mismatch records failed bytes id :
  id <> "" ->
  (forall cert, In cert records -> certificate_id cert = id ->
                document_hash cert <> hashDocument bytes) ->
  exists data,
    handleVerifySignature hashDocument records failed
      {| file := Some bytes; certificateId := Some id |} = Ok data /\
    valid data = Some false.
Proof.
  intros Hid Hdiff. unfold handleVerifySignature. simpl file. simpl certificateId.
  rewrite truthy_Some by done.
  destruct failed; [by eexists|].
  destruct (List.filter _ records) as [|cert [|? ?]] eqn:Hrows; try by eexists.
  assert (In cert (List.filter (fun c => String.eqb (certificate_id c) id) records)) as Hin
    by (rewrite Hrows; by left).
  apply filter_In in Hin as [Hin Heq%String.eqb_eq].
  rewrite (proj2 (String.eqb_neq _ _) (Hdiff cert Hin Heq)). by eexists.
Qed.

End VerifyFacts.

(** C7 (the code departs from the claim). [handleVerifySignature] reports
    [valid] from the hash comparison alone: a certificate that is revoked
    and past its expiry is reported valid when the presented document has
    the stored hash, although it is not valid in the specification's sense. *)
Theorem handleVerifySignature_revoked_reported_valid
    (hashDocument : string -> string) (bytes : string) (now : Z) :
  let cert :=
    {| Signatures.certificate_id := "CERT-AB12-CD34-EF56";
       Signatures.signer_name := "Alice";
       Signatures.reason := "Document certification";
       Signatures.document_hash := hashDocument bytes;
       Signatures.created_at := now - 10;
       Signatures.expires_at := Some (now - 5);
       Signatures.revoked_at := Some (now - 1) |} in
  Signatures.valid <$>
    (match Signatures.handleVerifySignature hashDocument [cert] false
             {| Signatures.file := Some bytes;
                Signatures.certificateId := Some "CERT-AB12-CD34-EF56" |} with
     | Ok data => Some data
     | Throw _ => None
     end) = Some (Some true) /\
  Signatures.spec_valid now cert (hashDocument bytes) = false.
Proof.
  intros cert. split; [|reflexivity].
  unfold Signatures.handleVerifySignature. simpl.
  by rewrite String.eqb_refl.
Qed.

(** * Worked requests *)

Section Scenarios.

Import Scenario.

(** Reordering a four-page document with order "3,1,2,4". *)
Example reorder_3124 :
  handleReorderPages
    {| file := Some (upload [page 1; page 2; page 3; page 4]); files := [];
       fields := {[ "order" := "3,1,2,4" ]} |}
  = Ok [page 3; page 1; page 2; page 4].
Proof. vm_compute. reflexivity. Qed.

(** Deleting every page is refused. *)
Example delete_all_refused :
  handleDeletePages
    {| file := Some (upload [page 1; page 2]); files := [];
       fields := {[ "pages" := "1-2" ]} |}
  = Throw "Cannot delete all pages".
Proof. vm_compute. reflexivity. Qed.

(** A user with one credit asks for an operation that costs three. *)
Example compress_insufficient :
  let request :=
    {| PdfOperations.operation := Some "compress";
       PdfOperations.authorization := Some "Bearer t0k3n";
       PdfOperations.body :=
         Some {| file := Some (upload [page 1]); files := []; fields := ∅ |} |} in
  let result := run (PdfOperations.POST decrement request) (world 1) in
  result.1 = Ok (PdfOperations.JsonError 402 "Insufficient credits" (Some (3, 1))) /\
  user_credits result.2 = {[ "alice" := 1 ]} /\
  calls result.2 = [AuthGetUser "t0k3n"; SelectCredits "alice"].
Proof. vm_compute. repeat split; reflexivity. Qed.

(** Merging a three-page and a two-page document costs two credits. *)
Example merge_charged :
  let request :=
    {| PdfOperations.operation := Some "merge";
       PdfOperations.authorization := Some "Bearer t0k3n";
       PdfOperations.body :=
         Some {| file := None;
                 files := [upload [page 1; page 2; page 3]; upload [page 4; page 5]];
                 fields := ∅ |} |} in
  let result := run (PdfOperations.POST decrement request) (world 10) in
  result.1 = Ok (PdfOperations.PdfResponse [page 1; page 2; page 3; page 4; page 5] 2) /\
  user_credits result.2 !! "alice" = Some 8 /\
  credit_transactions result.2 =
    [{| tx_user_id := "alice"; tx_amount := -2; tx_reason := "PDF merge" |}] /\
  calls result.2 =
    [AuthGetUser "t0k3n"; SelectCredits "alice"; RpcDeductCredits "alice" 2;
     InsertTransaction {| tx_user_id := "alice"; tx_amount := -2; tx_reason := "PDF merge" |}].
Proof. vm_compute. repeat split; reflexivity. Qed.

(** An operation name inherited from [Object.prototype] passes the cost
    check and ends in the [default] branch of the [switch]. *)
Example inherited_operation :
  let request :=
    {| PdfOperations.operation := Some "constructor";
       PdfOperations.authorization := Some "Bearer t0k3n";
       PdfOperations.body := Some {| file := None; files := []; fields := ∅ |} |} in
  (run (PdfOperations.POST decrement request) (world 0)).1
  = Ok (PdfOperations.JsonError 501 "Operation not implemented" None).
Proof. vm_compute. reflexivity. Qed.

End Scenarios.

(** * Further properties of the ledger *)

Section LedgerMore.

Lemma startsWith_substring (p s : string) :
  Js.startsWith p s = true -> s = String.append p (Js.substring (String.length p) s).
Proof.
  revert s. induction p as [|a p IH]; intros s; simpl; [done|].
  destruct s as [|b s]; [done|].
  intros [->%Ascii.eqb_eq Hs]%andb_prop.
  change (String b s = String b (String.append p (Js.substring (String.length p) s))).
  f_equal. by apply IH.
Qed.

Lemma audit_total_app userId txs t :
  audit_total userId (txs ++ [t]) =
  audit_total userId txs + (if String.eqb (tx_user_id t) userId then tx_amount t else 0).
Proof.
  unfold audit_total. rewrite List.filter_app, map_app, fold_right_app. simpl.
  generalize (map tx_amount (List.filter (fun t => String.eqb (tx_user_id t) userId) txs)).
  intros l. destruct (String.eqb (tx_user_id t) userId); simpl;
    induction l as [|x l IH]; simpl; lia.
Qed.

End LedgerMore.

(** [checkUserCredits] only reads the rows that exist: it writes no audit
    row and changes no stored balance, and when it answers that the user has
    credits, the balance it returns is the stored one and covers the
    request. *)
Theorem checkUserCredits_reads_only (w : World) (userId : string) (required : Z) :
  let result := run (checkUserCredits userId required) w in
  credit_transactions result.2 = credit_transactions w /\
  (forall u b, user_credits w !! u = Some b -> user_credits result.2 !! u = Some b) /\
  (forall current, result.1 = Ok (true, current) ->
     user_credits w !! userId = Some current /\ required <= current).
Proof.
  unfold checkUserCredits, select_credits, insert_credits. cbn.
  destruct (hd false (faults w)); cbn; [done|].
  destruct (user_credits w !! userId) as [credits|] eqn:Hrow; cbn.
  - rewrite int_or_0. split; [done|]. split; [done|].
    intros current [= Hle <-]. split; [done|]. by apply Z.leb_le.
  - destruct (hd false (tail (faults w))); cbn; [done|].
    rewrite Hrow. cbn. split; [done|]. split; [|done].
    intros u b Hu. rewrite lookup_insert_ne; [done|]. congruence.
Qed.

(** A user without a row gets one with zero credits on the first check,
    which answers "no credits" whatever is required, even nothing; the next
    check reads the new row. *)
Theorem checkUserCredits_creates_row (w : World) (userId : string) (required : Z) :
  user_credits w !! userId = None ->
  fault_free 3 w = true ->
  let first := run (checkUserCredits userId required) w in
  let second := run (checkUserCredits userId required) first.2 in
  first.1 = Ok (false, 0) /\
  user_credits first.2 = <[userId := 0]> (user_credits w) /\
  credit_transactions first.2 = credit_transactions w /\
  second.1 = Ok (required <=? 0, 0) /\
  user_credits second.2 = user_credits first.2.
Proof.
  intros Hrow Hfree.
  unfold checkUserCredits, select_credits, insert_credits, fault_free in *.
  destruct (faults w) as [|[] [|[] [|[] ?]]] eqn:Hfaults; try discriminate;
    cbn; rewrite Hfaults; cbn; rewrite Hrow; cbn; rewrite ?Hfaults; cbn;
    rewrite Hrow; cbn; rewrite lookup_insert_eq; cbn; done.
Qed.

Lemma checkUserCredits_creates_row_witness :
  let w := {| user_credits := ∅; credit_transactions := [];
              sessions := ∅; faults := []; calls := [] |} in
  let first := run (checkUserCredits "bob" 0) w in
  let second := run (checkUserCredits "bob" 0) first.2 in
  first.1 = Ok (false, 0) /\ second.1 = Ok (true, 0).
Proof.
  intros w first second.
  destruct (checkUserCredits_creates_row w "bob" 0) as (H1 & _ & _ & H4 & _);
    [reflexivity | reflexivity |].
  split; [exact H1 | exact H4].
Defined.

Lemma deductCreditsAtomic_row_cases
    (w : World) (userId reason : string) (amount balance : Z) :
  user_credits w !! userId = Some balance ->
  let result := run (deductCreditsAtomic userId amount reason) w in
  (forall u, u <> userId -> user_credits result.2 !! u = user_credits w !! u) /\
  match result.1 with
  | Throw _ =>
      hd false (faults w) = true /\
      user_credits result.2 = user_credits w /\
      credit_transactions result.2 = credit_transactions w
  | Ok r =>
      if success r then
        amount <= balance /\
        remaining r = balance - amount /\
        user_credits result.2 !! userId = Some (balance - amount) /\
        credit_transactions result.2 =
          credit_transactions w ++
            [{| tx_user_id := userId; tx_amount := - amount; tx_reason := reason |}]
      else
        remaining r = balance /\
        credit_transactions result.2 = credit_transactions w /\
        (user_credits result.2 !! userId = Some balance \/
         firstn 4 (faults w) = [false; false; true; true] /\
         user_credits result.2 !! userId = Some (balance - amount))
  end.
Proof.
  intros Hrow.
  unfold deductCreditsAtomic, checkUserCredits, select_credits, update_credits,
    insert_transaction.
  destruct (faults w) as [|f1 [|f2 [|f3 [|f4 rest]]]] eqn:Hfaults;
    repeat match goal with f : bool |- _ => destruct f end;
    cbn; rewrite Hfaults; cbn; rewrite ?Hrow; cbn; rewrite ?int_or_0;
    try done;
    (destruct (amount <=? balance) eqn:Hle;
     [apply Z.leb_le in Hle | apply Z.leb_gt in Hle]);
    cbn; rewrite ?Hfaults; cbn;
    (split; [intros u Hu; by rewrite ?lookup_alter_ne by done|]);
    rewrite ?lookup_alter_eq, ?Hrow; cbn; auto 10.
Qed.

(** Whatever the backend does, [deductCreditsAtomic] on a user with a row
    touches no other user's balance; it throws only when the first read
    fails, having written nothing; when it reports success the stored balance
    is [balance - amount] and exactly the audit row of [- amount] was
    appended; when it reports failure no audit row was written and the stored
    balance is the old one, except when the compensating write failed too. *)
Theorem deductCreditsAtomic_outcomes
    (w : World) (userId reason : string) (amount balance : Z) :
  user_credits w !! userId = Some balance ->
  let result := run (deductCreditsAtomic userId amount reason) w in
  (forall u, u <> userId -> user_credits result.2 !! u = user_credits w !! u) /\
  match result.1 with
  | Throw _ =>
      hd false (faults w) = true /\
      user_credits result.2 = user_credits w /\
      credit_transactions result.2 = credit_transactions w
  | Ok r =>
      if success r then
        amount <= balance /\
        remaining r = balance - amount /\
        user_credits result.2 !! userId = Some (balance - amount) /\
        credit_transactions result.2 =
          credit_transactions w ++
            [{| tx_user_id := userId; tx_amount := - amount; tx_reason := reason |}]
      else
        remaining r = balance /\
        credit_transactions result.2 = credit_transactions w /\
        (user_credits result.2 !! userId = Some balance \/
         firstn 4 (faults w) = [false; false; true; true] /\
         user_credits result.2 !! userId = Some (balance - amount))
  end.
Proof. exact (deductCreditsAtomic_row_cases w userId reason amount balance). Qed.

Lemma deductCreditsAtomic_outcomes_witness :
  let w := {| user_credits := {[ "alice" := 10; "bob" := 4 ]}; credit_transactions := [];
              sessions := ∅; faults := [false; true]; calls := [] |} in
  let result := run (deductCreditsAtomic "alice" 3 "PDF rotate") w in
  user_credits result.2 !! "bob" = Some 4 /\
  (exists r, result.1 = Ok r /\ success r = false /\ remaining r = 10) /\
  user_credits result.2 !! "alice" = Some 10 /\
  credit_transactions result.2 = [].
Proof.
  intros w result.
  destruct (deductCreditsAtomic_outcomes w "alice" "PDF rotate" 3 10 eq_refl)
    as (Hothers & _).
  subst result.
  split; [rewrite (Hothers "bob"); [reflexivity|discriminate]|].
  split; [eexists; split; [reflexivity|split; reflexivity]|].
  split; reflexivity.
Defined.

(** A user without a row is never charged: the settle step creates the row
    with zero credits and answers "Insufficient credits" for every amount,
    zero and negative amounts included, and writes no audit row. *)
Theorem deductCreditsAtomic_no_row
    (w : World) (userId reason : string) (amount : Z) :
  user_credits w !! userId = None ->
  fault_free 2 w = true ->
  let result := run (deductCreditsAtomic userId amount reason) w in
  result.1 = Ok {| success := false; error := Some "Insufficient credits";
                   remaining := 0; required := Some amount |} /\
  user_credits result.2 = <[userId := 0]> (user_credits w) /\
  credit_transactions result.2 = credit_transactions w /\
  calls result.2 = calls w ++ [SelectCredits userId; InsertCredits userId 0].
Proof.
  intros Hrow Hfree.
  unfold deductCreditsAtomic, checkUserCredits, select_credits, insert_credits,
    fault_free in *.
  destruct (faults w) as [|[] [|[] ?]] eqn:Hfaults; try discriminate;
    cbn; rewrite Hfaults; cbn; rewrite Hrow; cbn; rewrite ?Hfaults; cbn;
    rewrite Hrow; cbn; rewrite <- app_assoc; done.
Qed.

Lemma deductCreditsAtomic_no_row_witness :
  let w := {| user_credits := ∅; credit_transactions := [];
              sessions := ∅; faults := []; calls := [] |} in
  let result := run (deductCreditsAtomic "bob" (-5) "refund") w in
  result.1 = Ok {| success := false; error := Some "Insufficient credits";
                   remaining := 0; required := Some (-5) |} /\
  user_credits result.2 !! "bob" = Some 0.
Proof.
  intros w result.
  destruct (deductCreditsAtomic_no_row w "bob" "refund" (-5)) as (H1 & H2 & _);
    [reflexivity | reflexivity |].
  subst result. split; [exact H1|]. rewrite H2. reflexivity.
Defined.

(** The balance and the audit log stay reconciled across a settle step: the
    stored balance minus the sum of the user's audit amounts is the same
    before and after, unless the audit insert and the compensating write both
    fail. *)
Theorem deductCreditsAtomic_reconciles
    (w : World) (userId reason : string) (amount balance : Z) :
  user_credits w !! userId = Some balance ->
  firstn 4 (faults w) <> [false; false; true; true] ->
  let result := run (deductCreditsAtomic userId amount reason) w in
  exists balance',
    user_credits result.2 !! userId = Some balance' /\
    balance' - audit_total userId (credit_transactions result.2) =
    balance - audit_total userId (credit_transactions w).
Proof.
  intros Hrow Hscript result.
  destruct (deductCreditsAtomic_row_cases w userId reason amount balance Hrow)
    as (_ & Hcases). fold result in Hcases.
  destruct (result.1) as [r|message].
  - destruct (success r).
    + destruct Hcases as (_ & _ & Hbal & Htxs). exists (balance - amount).
      split; [done|]. rewrite Htxs, audit_total_app. simpl.
      rewrite String.eqb_refl. lia.
    + destruct Hcases as (_ & Htxs & [Hbal|[Hbad _]]); [|done].
      exists balance. by rewrite Htxs.
  - destruct Hcases as (_ & Hbal & Htxs). exists balance. by rewrite Hbal, Htxs.
Qed.

Lemma deductCreditsAtomic_reconciles_witness :
  let w := {| user_credits := {[ "alice" := 10 ]};
              credit_transactions :=
                [{| tx_user_id := "alice"; tx_amount := 10; tx_reason := "purchase" |}];
              sessions := ∅; faults := []; calls := [] |} in
  let result := run (deductCreditsAtomic "alice" 3 "PDF compress") w in
  exists balance',
    user_credits result.2 !! "alice" = Some balance' /\
    balance' - audit_total "alice" (credit_transactions result.2) = 0.
Proof.
  intros w result.
  destruct (deductCreditsAtomic_reconciles w "alice" "PDF compress" 3 10)
    as (balance' & H1 & H2); [reflexivity | discriminate |].
  exists balance'. split; [exact H1 | exact H2].
Defined.

(** * Authentication and the balance route *)

(** [getAuthenticatedUser] returns a user only for a header of the form
    "Bearer <token>" whose token the auth service accepts for that user, and
    it never touches balances or audit rows. *)
Theorem getAuthenticatedUser_sound (w : World) (authHeader : option string) :
  let result := run (getAuthenticatedUser authHeader) w in
  user_credits result.2 = user_credits w /\
  credit_transactions result.2 = credit_transactions w /\
  (forall user, result.1 = Ok (AuthUser user) ->
     exists token, authHeader = Some (String.append "Bearer " token) /\
                   sessions w !! token = Some user).
Proof.
  unfold getAuthenticatedUser, auth_getUser.
  destruct authHeader as [header|]; [|by repeat split].
  destruct (Js.startsWith "Bearer " header) eqn:Hstart; [|by repeat split].
  apply startsWith_substring in Hstart. simpl negb. cbv iota.
  change (String.length "Bearer ") with 7%nat in Hstart.
  remember (Js.substring 7 header) as token eqn:Htoken. clear Htoken.
  cbn. destruct (hd false (faults w)); cbn; [by repeat split|].
  destruct (sessions w !! token) as [u|] eqn:Hsession; cbn; [|by repeat split].
  split; [done|]. split; [done|]. intros user [= <-].
  exists token. split; [by f_equal|done].
Qed.

(** The balance route answers with a balance only to a caller whose bearer
    token the auth service accepts, and the balance is that user's stored one
    (zero when the user has no row yet); it always answers, never writes an
    audit row and never changes a stored balance. *)
Theorem balance_GET_sound (w : World) (authorization : option string) :
  let result := run (CreditsBalance.GET authorization) w in
  credit_transactions result.2 = credit_transactions w /\
  (forall u b, user_credits w !! u = Some b -> user_credits result.2 !! u = Some b) /\
  exists response,
    result.1 = Ok response /\
    (forall credits user, response = CreditsBalance.Balance credits user ->
       exists token,
         authorization = Some (String.append "Bearer " token) /\
         sessions w !! token = Some user /\
         credits = default 0 (user_credits w !! user)).
Proof.
  unfold CreditsBalance.GET, auth_getUser, checkUserCredits, select_credits,
    insert_credits.
  destruct authorization as [header|]; [|cbn; split; [done|]; split; [done|]; by eexists].
  destruct (Js.startsWith "Bearer " header) eqn:Hstart;
    [|cbn; split; [done|]; split; [done|]; by eexists].
  apply startsWith_substring in Hstart.
  change (String.length "Bearer ") with 7%nat in Hstart.
  remember (Js.substring 7 header) as token eqn:Htoken. clear Htoken.
  cbn. destruct (hd false (faults w)); cbn;
    [split; [done|]; split; [done|]; by eexists|].
  destruct (sessions w !! token) as [u|] eqn:Hsession; cbn;
    [|split; [done|]; split; [done|]; by eexists].
  destruct (hd false (tail (faults w))); cbn;
    [split; [done|]; split; [done|]; by eexists|].
  destruct (user_credits w !! u) as [credits|] eqn:Hrow; cbn.
  - rewrite int_or_0. split; [done|]. split; [done|]. eexists. split; [done|].
    intros ? ? [= <- <-]. exists token. rewrite Hrow.
    split; [by f_equal|done].
  - destruct (hd false (tail (tail (faults w)))); cbn; rewrite ?Hrow; cbn.
    + split; [done|]. split; [done|]. eexists. split; [done|].
      intros ? ? [= <- <-]. exists token. rewrite Hrow.
      split; [by f_equal|done].
    + split; [done|]. split.
      { intros u' b Hu'. rewrite lookup_insert_ne; [done|]. congruence. }
      eexists. split; [done|].
      intros ? ? [= <- <-]. exists token. rewrite Hrow.
      split; [by f_equal|done].
Qed.

(** * Further properties of the PDF operations route *)

Section RouteMore.

Import PdfOperations.

Variable deduct_credits :
  string -> Z -> gmap string Z * list Transaction ->
  option (gmap string Z * list Transaction).

(** A request for a priced operation whose header carries no bearer token
    the auth service accepts is answered 401, whatever the backend does; no
    balance is read or changed and no charging call is made. *)
Theorem POST_unauthenticated (request : Request) (w : World) (name : string) :
  operation request = Some name ->
  lookup_cost name <> Undefined ->
  bearer_token (authorization request) ≫= (fun token => sessions w !! token) = None ->
  let result := run (POST deduct_credits request) w in
  (exists message, result.1 = Ok (JsonError 401 message None)) /\
  user_credits result.2 = user_credits w /\
  credit_transactions result.2 = credit_transactions w /\
  (calls result.2 = calls w \/
   exists token, calls result.2 = calls w ++ [AuthGetUser token]).
Proof.
  intros Hop Hknown Hauth. unfold POST, authenticateAndCheckCredits, auth_getUser.
  rewrite Hop. unfold bearer_token in Hauth.
  destruct name as [|c name]; [done|].
  destruct (lookup_cost (String c name)); [| |done];
    (destruct (authorization request) as [header|]; [|cbn; eauto 10]);
    (destruct (Js.startsWith "Bearer " header); [|cbn; eauto 10]);
    remember (Js.substring 7 header) as token eqn:Htoken; clear Htoken;
    simpl in Hauth; cbn; destruct (hd false (faults w)); cbn; rewrite ?Hauth; cbn; eauto 10.
Qed.


(** An authenticated caller whose balance is below the cost of the operation
    is answered 402 with the cost and the balance; the handler is not run for
    charge: nothing is written. *)
Theorem POST_insufficient_credits
    (request : Request) (w : World) (name token user : string) (cost : Z) :
  operation request = Some name ->
  lookup_cost name = Cost cost ->
  bearer_token (authorization request) = Some token ->
  sessions w !! token = Some user ->
  fault_free 2 w = true ->
  default 0 (user_credits w !! user) < cost ->
  let result := run (POST deduct_credits request) w in
  result.1 = Ok (JsonError 402 "Insufficient credits"
                   (Some (cost, default 0 (user_credits w !! user)))) /\
  user_credits result.2 = user_credits w /\
  credit_transactions result.2 = credit_transactions w /\
  calls result.2 = calls w ++ [AuthGetUser token; SelectCredits user].
Proof.
  intros Hop Hcost Htoken Hsession Hfree Hlow.
  unfold POST, authenticateAndCheckCredits, auth_getUser, select_credits, fault_free in *.
  rewrite Hop. unfold bearer_token in Htoken.
  destruct name as [|c name]; [done|]. rewrite Hcost.
  destruct (authorization request) as [header|]; [|done].
  destruct (Js.startsWith "Bearer " header); [|done].
  remember (Js.substring 7 header) as token' eqn:E; clear E.
  injection Htoken as ->.
  destruct (faults w) as [|[] [|[] ?]] eqn:Hfaults; try discriminate;
    cbn; rewrite Hfaults; cbn; rewrite Hsession; cbn; rewrite ?Hfaults; cbn;
    (destruct (user_credits w !! user) as [balance|]; cbn in *;
     rewrite ?int_or_0, (proj2 (Z.ltb_lt _ _) Hlow); cbn;
     rewrite <- app_assoc; done).
Qed.

(** The charge on the paid path: when the handler of a priced operation
    returns a document for an authenticated caller with enough credits, and
    the backend is healthy, the caller is charged once, and the table's
    cost: four backend calls are made, the third the [deduct_credits] call
    for the user and the cost, the fourth the insert of one audit row for
    the user with amount [- cost]; the stored state is what [deduct_credits]
    made of it, plus that row.  (What the caller is then answered is another
    matter, and is not stated here.) *)
Theorem POST_charges_cost_once
    (request : Request) (w : World) (name token user : string) (cost : Z)
    (formData : FormData) (handler : FormData -> Res PDFDocument) (pdf : PDFDocument)
    (credits' : gmap string Z) (txs' : list Transaction) :
  operation request = Some name ->
  lookup_cost name = Cost cost ->
  bearer_token (authorization request) = Some token ->
  sessions w !! token = Some user ->
  fault_free 4 w = true ->
  cost <= default 0 (user_credits w !! user) ->
  body request = Some formData ->
  dispatch name = Some handler ->
  handler formData = Ok pdf ->
  deduct_credits user cost (user_credits w, credit_transactions w) = Some (credits', txs') ->
  let result := run (POST deduct_credits request) w in
  exists row,
    tx_user_id row = user /\ tx_amount row = - cost /\
    user_credits result.2 = credits' /\
    credit_transactions result.2 = txs' ++ [row] /\
    calls result.2 =
      calls w ++ [AuthGetUser token; SelectCredits user; RpcDeductCredits user cost;
                  InsertTransaction row].
Proof.
  intros Hop Hcost Htoken Hsession Hfree Hhigh Hbody Hdispatch Hhandler Hrpc.
  exists {| tx_user_id := user; tx_amount := - cost; tx_reason := "PDF " +:+ name |}.
  split; [done|]. split; [done|].
  unfold POST, authenticateAndCheckCredits, auth_getUser, select_credits, deductCredits,
    rpc_deduct_credits, insert_transaction, fault_free in *.
  rewrite Hop. unfold bearer_token in Htoken.
  destruct name as [|c name]; [done|]. rewrite Hcost.
  destruct (authorization request) as [header|]; [|done].
  destruct (Js.startsWith "Bearer " header); [|done].
  remember (Js.substring 7 header) as token' eqn:E; clear E.
  injection Htoken as ->. rewrite Hbody, Hdispatch.
  destruct (faults w) as [|[] [|[] [|[] [|[] ?]]]] eqn:Hfaults; try discriminate;
    cbn; rewrite Hfaults; cbn; rewrite Hsession; cbn; rewrite ?Hfaults; cbn;
    (destruct (user_credits w !! user) as [balance|] eqn:Hrow; cbn in *;
     rewrite ?int_or_0, (proj2 (Z.ltb_ge _ _) Hhigh); cbn;
     rewrite Hhandler; cbn; rewrite ?Hfaults; cbn; rewrite Hrpc; cbn;
     rewrite ?Hfaults; cbn; rewrite <- !app_assoc; done).
Qed.

(** When the handler has produced a document but the [deduct_credits] call
    fails, the request ends in 500 "Failed to deduct credits": the document
    is withheld and no audit row is inserted. *)
Theorem POST_charge_failure
    (request : Request) (w : World) (name token user : string) (cost : Z)
    (formData : FormData) (handler : FormData -> Res PDFDocument) (pdf : PDFDocument) :
  operation request = Some name ->
  lookup_cost name = Cost cost ->
  bearer_token (authorization request) = Some token ->
  sessions w !! token = Some user ->
  fault_free 2 w = true ->
  cost <= default 0 (user_credits w !! user) ->
  body request = Some formData ->
  dispatch name = Some handler ->
  handler formData = Ok pdf ->
  hd false (skipn 2 (faults w)) = true \/
  deduct_credits user cost (user_credits w, credit_transactions w) = None ->
  let result := run (POST deduct_credits request) w in
  result.1 = Ok (JsonError 500 "Failed to deduct credits" None) /\
  user_credits result.2 = user_credits w /\
  credit_transactions result.2 = credit_transactions w /\
  calls result.2 =
    calls w ++ [AuthGetUser token; SelectCredits user; RpcDeductCredits user cost].
Proof.
  intros Hop Hcost Htoken Hsession Hfree Hhigh Hbody Hdispatch Hhandler Hfail.
  unfold POST, authenticateAndCheckCredits, auth_getUser, select_credits, deductCredits,
    rpc_deduct_credits, insert_transaction, fault_free in *.
  rewrite Hop. unfold bearer_token in Htoken.
  destruct name as [|c name]; [done|]. rewrite Hcost.
  destruct (authorization request) as [header|]; [|done].
  destruct (Js.startsWith "Bearer " header); [|done].
  remember (Js.substring 7 header) as token' eqn:E; clear E.
  injection Htoken as ->. rewrite Hbody, Hdispatch.
  destruct (faults w) as [|[] [|[] [|[] ?]]] eqn:Hfaults; try discriminate;
    simpl in Hfail; (destruct Hfail as [Hfail|Hfail]; try discriminate);
    cbn; rewrite Hfaults; cbn; rewrite Hsession; cbn; rewrite ?Hfaults; cbn;
    (destruct (user_credits w !! user) as [balance|] eqn:Hrow; cbn in *;
     rewrite ?int_or_0, (proj2 (Z.ltb_ge _ _) Hhigh); cbn;
     rewrite Hhandler; cbn; rewrite ?Hfaults; cbn; rewrite ?Hfail; cbn;
     rewrite <- !app_assoc; done).
Qed.

(** An operation that has a price but no handler ("protect", "unlock") is
    answered 501 after the credit check and is not charged. *)
Theorem POST_priced_not_implemented
    (request : Request) (w : World) (name token user : string) (cost : Z)
    (formData : FormData) :
  operation request = Some name ->
  lookup_cost name = Cost cost ->
  dispatch name = None ->
  bearer_token (authorization request) = Some token ->
  sessions w !! token = Some user ->
  fault_free 2 w = true ->
  cost <= default 0 (user_credits w !! user) ->
  body request = Some formData ->
  let result := run (POST deduct_credits request) w in
  result.1 = Ok (JsonError 501 "Operation not implemented" None) /\
  user_credits result.2 = user_credits w /\
  credit_transactions result.2 = credit_transactions w /\
  calls result.2 = calls w ++ [AuthGetUser token; SelectCredits user].
Proof.
  intros Hop Hcost Hdispatch Htoken Hsession Hfree Hhigh Hbody.
  unfold POST, authenticateAndCheckCredits, auth_getUser, select_credits, fault_free in *.
  rewrite Hop. unfold bearer_token in Htoken.
  destruct name as [|c name]; [done|]. rewrite Hcost.
  destruct (authorization request) as [header|]; [|done].
  destruct (Js.startsWith "Bearer " header); [|done].
  remember (Js.substring 7 header) as token' eqn:E; clear E.
  injection Htoken as ->. rewrite Hbody, Hdispatch.
  destruct (faults w) as [|[] [|[] ?]] eqn:Hfaults; try discriminate;
    cbn; rewrite Hfaults; cbn; rewrite Hsession; cbn; rewrite ?Hfaults; cbn;
    (destruct (user_credits w !! user) as [balance|] eqn:Hrow; cbn in *;
     rewrite ?int_or_0, (proj2 (Z.ltb_ge _ _) Hhigh); cbn;
     rewrite <- !app_assoc; done).
Qed.

End RouteMore.

Lemma POST_unauthenticated_witness :
  let request :=
    {| PdfOperations.operation := Some "merge"; PdfOperations.authorization := Some "Basic dXNlcg==";
       PdfOperations.body := Some {| file := None; files := []; fields := ∅ |} |} in
  let result := run (PdfOperations.POST Scenario.decrement request) (Scenario.world 10) in
  (exists message, result.1 = Ok (PdfOperations.JsonError 401 message None)) /\
  user_credits result.2 = {[ "alice" := 10 ]}.
Proof.
  intros request result.
  destruct (POST_unauthenticated Scenario.decrement request (Scenario.world 10) "merge")
    as (H1 & H2 & _); [reflexivity | discriminate | reflexivity |].
  split; [exact H1 | exact H2].
Defined.


Lemma POST_insufficient_credits_witness :
  let request :=
    {| PdfOperations.operation := Some "compress";
       PdfOperations.authorization := Some "Bearer t0k3n";
       PdfOperations.body := None |} in
  let result := run (PdfOperations.POST Scenario.decrement request) (Scenario.world 1) in
  result.1 = Ok (PdfOperations.JsonError 402 "Insufficient credits" (Some (3, 1))) /\
  user_credits result.2 = {[ "alice" := 1 ]}.
Proof.
  intros request result.
  destruct (POST_insufficient_credits Scenario.decrement request (Scenario.world 1)
              "compress" "t0k3n" "alice" 3) as (H1 & H2 & _);
    [reflexivity | reflexivity | reflexivity | reflexivity | reflexivity
    | vm_compute; reflexivity |].
  split; [exact H1 | exact H2].
Defined.

Lemma POST_charges_cost_once_witness :
  let formData :=
    {| file := Some (Scenario.upload [Scenario.page 1; Scenario.page 2]);
       files := []; fields := {[ "angle" := "180" ]} |} in
  let request :=
    {| PdfOperations.operation := Some "rotate";
       PdfOperations.authorization := Some "Bearer t0k3n";
       PdfOperations.body := Some formData |} in
  let result := run (PdfOperations.POST Scenario.decrement request) (Scenario.world 10) in
  user_credits result.2 !! "alice" = Some 9 /\
  exists row,
    tx_amount row = -1 /\ credit_transactions result.2 = [row] /\
    calls result.2 = [AuthGetUser "t0k3n"; SelectCredits "alice";
                      RpcDeductCredits "alice" 1; InsertTransaction row].
Proof.
  intros formData request result.
  destruct (POST_charges_cost_once Scenario.decrement request (Scenario.world 10)
              "rotate" "t0k3n" "alice" 1 formData handleRotate
              [{| content := 1; rotation := 180; overlays := [] |};
               {| content := 2; rotation := 180; overlays := [] |}]
              (alter (fun balance => balance - 1) "alice" {[ "alice" := 10 ]}) [])
    as (row & _ & H2 & H3 & H4 & H5);
    [reflexivity | reflexivity | reflexivity | reflexivity | reflexivity
    | vm_compute; discriminate | reflexivity | reflexivity
    | vm_compute; reflexivity | reflexivity |].
  subst result. split; [rewrite H3; reflexivity|].
  exists row. split; [exact H2|]. split; [exact H4 | exact H5].
Defined.

Lemma POST_charge_failure_witness :
  let formData :=
    {| file := Some (Scenario.upload [Scenario.page 1]); files := []; fields := ∅ |} in
  let request :=
    {| PdfOperations.operation := Some "compress";
       PdfOperations.authorization := Some "Bearer t0k3n";
       PdfOperations.body := Some formData |} in
  let refuse (user_id : string) (amount : Z) (store : gmap string Z * list Transaction)
    : option (gmap string Z * list Transaction) := None in
  let result := run (PdfOperations.POST refuse request) (Scenario.world 10) in
  result.1 = Ok (PdfOperations.JsonError 500 "Failed to deduct credits" None) /\
  user_credits result.2 = {[ "alice" := 10 ]} /\
  credit_transactions result.2 = [].
Proof.
  intros formData request refuse result.
  destruct (POST_charge_failure refuse request (Scenario.world 10)
              "compress" "t0k3n" "alice" 3 formData PdfOperations.handleCompress
              [Scenario.page 1])
    as (H1 & H2 & H3 & _);
    [reflexivity | reflexivity | reflexivity | reflexivity | reflexivity
    | vm_compute; discriminate | reflexivity | reflexivity | reflexivity
    | right; reflexivity |].
  split; [exact H1|]. split; [exact H2 | exact H3].
Defined.

Lemma POST_priced_not_implemented_witness :
  let formData := {| file := None; files := []; fields := ∅ |} in
  let request :=
    {| PdfOperations.operation := Some "protect";
       PdfOperations.authorization := Some "Bearer t0k3n";
       PdfOperations.body := Some formData |} in
  let result := run (PdfOperations.POST Scenario.decrement request) (Scenario.world 10) in
  result.1 = Ok (PdfOperations.JsonError 501 "Operation not implemented" None) /\
  user_credits result.2 = {[ "alice" := 10 ]}.
Proof.
  intros formData request result.
  destruct (POST_priced_not_implemented Scenario.decrement request (Scenario.world 10)
              "protect" "t0k3n" "alice" 2 formData)
    as (H1 & H2 & _);
    [reflexivity | reflexivity | reflexivity | reflexivity | reflexivity | reflexivity
    | vm_compute; discriminate | reflexivity |].
  split; [exact H1 | exact H2].
Defined.

(** * Further properties of the page handlers *)

Section DocFacts.

(** Two strictly ascending lists with the same elements are equal. *)
Lemma ascending_ext (l1 l2 : list Z) :
  StronglySorted Z.lt l1 -> StronglySorted Z.lt l2 ->
  (forall x, x ∈ l1 <-> x ∈ l2) -> l1 = l2.
Proof.
  intros H1. revert l2. induction H1 as [|a l1 Hs1 IH Ha]; intros l2 H2 Hext.
  - destruct l2 as [|b l2]; [done|]. specialize (Hext b). set_solver.
  - destruct H2 as [|b l2 Hs2 Hb].
    { specialize (Hext a). set_solver. }
    rewrite Forall_forall in Ha, Hb.
    assert (a = b) as <-.
    { destruct (Hext a) as [Hab _], (Hext b) as [_ Hba].
      specialize (Hab ltac:(by left)). specialize (Hba ltac:(by left)).
      apply elem_of_cons in Hab as [?|Hab], Hba as [?|Hba]; try done.
      specialize (Ha _ Hba). specialize (Hb _ Hab). lia. }
    f_equal. apply IH; [done|]. intros x. split; intros Hx.
    + destruct (Hext x) as [Hab _]. specialize (Hab ltac:(by right)).
      apply elem_of_cons in Hab as [->|?]; [|done]. specialize (Ha _ Hx). lia.
    + destruct (Hext x) as [_ Hba]. specialize (Hba ltac:(by right)).
      apply elem_of_cons in Hba as [->|?]; [|done]. specialize (Hb _ Hx). lia.
Qed.

Lemma filter_ascending (f : Z -> bool) (l : list Z) :
  StronglySorted Z.lt l -> StronglySorted Z.lt (List.filter f l).
Proof.
  induction 1 as [|a l Hs IH Ha]; simpl; [constructor|].
  destruct (f a); [|done]. constructor; [done|].
  rewrite Forall_forall in Ha |- *. intros x [Hx _]%filter_elem. by apply Ha.
Qed.

Lemma range0_ascending n : StronglySorted Z.lt (Js.range0 n).
Proof.
  unfold Js.range0. generalize 0%nat. induction (Z.to_nat n) as [|k IH]; intros s; simpl.
  - constructor.
  - constructor; [apply IH|]. apply Forall_forall.
    intros x (j & -> & Hj%list_elem_of_In%in_seq)%list_elem_of_fmap. lia.
Qed.

Lemma pages_at_cons pdf i rest :
  pages_at pdf (i :: rest) =
  match (if 0 <=? i then pdf !! Z.to_nat i else None) with
  | Some page => page :: pages_at pdf rest
  | None => pages_at pdf rest
  end.
Proof. reflexivity. Qed.

Lemma pages_at_nil indices : pages_at [] indices = [].
Proof.
  induction indices as [|i rest IH]; [done|].
  rewrite pages_at_cons, IH. by destruct (0 <=? i).
Qed.

Lemma copyPages_pages_at pdf indices :
  Forall (fun i => 0 <= i < PdfLib.getPageCount pdf) indices ->
  PdfLib.copyPages pdf (map Some indices) = Ok (pages_at pdf indices) /\
  length (pages_at pdf indices) = length indices.
Proof.
  induction 1 as [|i rest Hi Hrest [IH Hlen]]; [done|].
  destruct (getPage_Ok pdf i Hi) as (page & Hpage & Hget).
  rewrite pages_at_cons, (proj2 (Z.leb_le 0 i)), Hpage by lia.
  change (PdfLib.copyPages pdf (map Some (i :: rest))) with
    (page' ← PdfLib.getPage pdf i;
     pages ← PdfLib.copyPages pdf (map Some rest); Ok (page' :: pages)).
  rewrite Hget, Res_bind_Ok, IH, Res_bind_Ok. split; [done|]. simpl. by rewrite Hlen.
Qed.

Lemma pages_at_shift page pdf indices :
  Forall (fun i => 1 <= i) indices ->
  pages_at (page :: pdf) indices = pages_at pdf (map (fun i => i - 1) indices).
Proof.
  induction 1 as [|i rest Hi Hrest IH]; [done|].
  simpl map. rewrite !pages_at_cons, IH.
  rewrite (proj2 (Z.leb_le 0 i)), (proj2 (Z.leb_le 0 (i - 1))) by lia.
  replace (Z.to_nat i) with (S (Z.to_nat (i - 1))) by lia. done.
Qed.

Lemma shift_ascending (l : list Z) :
  StronglySorted Z.lt l -> StronglySorted Z.lt (map (fun i => i - 1) l).
Proof.
  induction 1 as [|a l Hl IHl Ha]; simpl; constructor; [done|].
  rewrite Forall_forall in Ha. apply Forall_forall.
  intros x (y & -> & Hy)%list_elem_of_fmap. specialize (Ha y Hy). lia.
Qed.

Lemma pages_at_sublist pdf : forall indices,
  StronglySorted Z.lt indices -> Forall (fun i => 0 <= i) indices ->
  pages_at pdf indices `sublist_of` pdf.
Proof.
  induction pdf as [|page pdf IH]; intros indices Hsorted Hnn.
  - rewrite pages_at_nil. constructor.
  - destruct Hsorted as [|i rest Hrest Hi]; [apply sublist_nil_l|].
    apply Forall_cons in Hnn as [Hi0 Hnn]. rewrite Forall_forall in Hi.
    assert (Forall (fun j => 1 <= j) rest) as Hrest1.
    { apply Forall_forall. intros j Hj. specialize (Hi j Hj). lia. }
    assert (Forall (fun j => 0 <= j) (map (fun i => i - 1) rest)) as Hshift.
    { apply Forall_forall. intros x (y & -> & Hy)%list_elem_of_fmap.
      rewrite Forall_forall in Hrest1. specialize (Hrest1 y Hy). lia. }
    destruct (decide (i = 0)) as [->|Hpos].
    + rewrite pages_at_cons. simpl. rewrite pages_at_shift by done.
      apply sublist_skip, IH; [by apply shift_ascending|done].
    + rewrite pages_at_shift by (constructor; [lia|done]).
      apply sublist_cons, IH.
      * apply (shift_ascending (i :: rest)). constructor; [done|by apply Forall_forall].
      * simpl. constructor; [lia|done].
Qed.

Lemma pages_at_all pdf : pages_at pdf (Js.range0 (PdfLib.getPageCount pdf)) = pdf.
Proof.
  pose proof (copyPages_all pdf) as Hall.
  destruct (copyPages_pages_at pdf (Js.range0 (PdfLib.getPageCount pdf))) as [Hat _].
  { apply Forall_forall. intros i. by rewrite range0_elem. }
  congruence.
Qed.

End DocFacts.

Section SelectionFacts.

Lemma existsb_elem (i : Z) (l : list Z) : existsb (Z.eqb i) l = true <-> i ∈ l.
Proof.
  rewrite existsb_exists, list_elem_of_In. split.
  - by intros (x & Hx & ->%Z.eqb_eq).
  - intros Hi. exists i. by rewrite Z.eqb_refl.
Qed.

(** The indices a deletion keeps and the ones it deletes split the page
    indices of the document. *)
Lemma kept_partition (deleted : list Z) (n : Z) :
  NoDup deleted -> Forall (fun i => 0 <= i < n) deleted ->
  deleted ++ List.filter (fun i => negb (existsb (Z.eqb i) deleted)) (Js.range0 n)
  ≡ₚ Js.range0 n.
Proof.
  intros Hnd Hin. rewrite Forall_forall in Hin.
  assert (forall x, x ∈ List.filter (fun i => negb (existsb (Z.eqb i) deleted)) (Js.range0 n)
                    <-> 0 <= x < n /\ x ∉ deleted) as Hkept.
  { intros x. rewrite filter_elem, range0_elem, negb_true_iff.
    rewrite <- (existsb_elem x deleted). destruct (existsb _ _); intuition congruence. }
  apply NoDup_Permutation.
  - apply NoDup_app. split; [done|]. split; [|apply filter_NoDup, range0_NoDup].
    intros x Hx Hk%Hkept. tauto.
  - apply range0_NoDup.
  - intros x. rewrite elem_of_app, Hkept, range0_elem. split.
    + intros [Hx|[Hx _]]; [by apply Hin|done].
    + intros Hx. destruct (decide (x ∈ deleted)); tauto.
Qed.

End SelectionFacts.

Lemma handleExtractPages_result
    (formData : FormData) (f : File) (pdf : PDFDocument) (range : string) :
  file formData = Some f -> bytes f = Some pdf ->
  get formData "range" = Some range -> range <> "" ->
  let indices := parsePageRange range (PdfLib.getPageCount pdf) in
  handleExtractPages formData = Ok (PdfLib.save (pages_at pdf indices)) /\
  length (pages_at pdf indices) = length indices /\
  pages_at pdf indices `sublist_of` pdf /\
  (indices <> [] -> handleExtractPages formData = Ok (pages_at pdf indices)) /\
  (indices = [] -> handleExtractPages formData = Ok [PdfLib.blank_page]).
Proof.
  intros Hfile Hbytes Hget Hne indices.
  assert (handleExtractPages formData = Ok (PdfLib.save (pages_at pdf indices))) as Hrun.
  { unfold handleExtractPages. rewrite Hfile, Hget, truthy_Some by done.
    unfold PdfLib.load. rewrite Hbytes, Res_bind_Ok.
    destruct (copyPages_pages_at pdf indices) as [Hcopy Hlen];
      [apply parsePageRange_in_range|].
    fold indices. by rewrite Hcopy. }
  destruct (copyPages_pages_at pdf indices) as [_ Hlen];
    [apply parsePageRange_in_range|].
  split; [done|]. split; [done|]. split; [|split].
  - apply pages_at_sublist.
    + apply parsePageRange_ascending.
    + eapply Forall_impl; [apply parsePageRange_in_range|]. simpl. lia.
  - intros Hsome. rewrite Hrun, save_nonempty; [done|].
    intros Hnil. rewrite Hnil in Hlen. by destruct indices.
  - intros Hnone. rewrite Hrun. fold indices. by rewrite Hnone.
Qed.

(** Extracting pages never reorders or repeats them: the pages at the
    parsed indices are a subsequence of the input, one page per index, and
    the output is the saved document of those pages.  When the expression
    selects a page, the output is exactly those pages; when it selects none,
    the output is not empty but a single blank page. *)
Theorem handleExtractPages_subsequence
    (formData : FormData) (f : File) (pdf : PDFDocument) (range : string) :
  file formData = Some f -> bytes f = Some pdf ->
  get formData "range" = Some range -> range <> "" ->
  let indices := parsePageRange range (PdfLib.getPageCount pdf) in
  handleExtractPages formData = Ok (PdfLib.save (pages_at pdf indices)) /\
  length (pages_at pdf indices) = length indices /\
  pages_at pdf indices `sublist_of` pdf /\
  (indices <> [] -> handleExtractPages formData = Ok (pages_at pdf indices)) /\
  (indices = [] -> handleExtractPages formData = Ok [PdfLib.blank_page]).
Proof. exact (handleExtractPages_result formData f pdf range). Qed.

Lemma handleExtractPages_subsequence_witness :
  let pdf := [Scenario.page 1; Scenario.page 2; Scenario.page 3; Scenario.page 4] in
  handleExtractPages
    {| file := Some (Scenario.upload pdf); files := [];
       fields := {[ "range" := "4,1-2,2" ]} |}
  = Ok [Scenario.page 1; Scenario.page 2; Scenario.page 4] /\
  [Scenario.page 1; Scenario.page 2; Scenario.page 4] `sublist_of` pdf /\
  handleExtractPages
    {| file := Some (Scenario.upload pdf); files := [];
       fields := {[ "range" := "7-9" ]} |}
  = Ok [PdfLib.blank_page].
Proof.
  intros pdf.
  destruct (handleExtractPages_subsequence
              {| file := Some (Scenario.upload pdf); files := [];
                 fields := {[ "range" := "4,1-2,2" ]} |}
              (Scenario.upload pdf) pdf "4,1-2,2")
    as (_ & _ & H3 & H4 & _); [reflexivity | reflexivity | reflexivity | discriminate |].
  destruct (handleExtractPages_subsequence
              {| file := Some (Scenario.upload pdf); files := [];
                 fields := {[ "range" := "7-9" ]} |}
              (Scenario.upload pdf) pdf "7-9")
    as (_ & _ & _ & _ & H5); [reflexivity | reflexivity | reflexivity | discriminate |].
  split; [apply H4; discriminate|]. split; [exact H3 | apply H5; reflexivity].
Defined.

Lemma handleDeletePages_result
    (formData : FormData) (f : File) (pdf : PDFDocument) (pages : string) :
  file formData = Some f -> bytes f = Some pdf ->
  get formData "pages" = Some pages -> pages <> "" ->
  let deleted := parsePageRange pages (PdfLib.getPageCount pdf) in
  let kept :=
    List.filter (fun i => negb (existsb (Z.eqb i) deleted))
      (Js.range0 (PdfLib.getPageCount pdf)) in
  (length pdf = length deleted + length (pages_at pdf kept))%nat /\
  pages_at pdf kept `sublist_of` pdf /\
  handleDeletePages formData =
    if (length deleted =? length pdf)%nat then Throw "Cannot delete all pages"
    else Ok (pages_at pdf kept).
Proof.
  intros Hfile Hbytes Hget Hne deleted kept.
  assert (Forall (fun i => 0 <= i < PdfLib.getPageCount pdf) kept) as Hkept.
  { apply Forall_forall. intros i [Hi _]%filter_elem. by apply range0_elem. }
  destruct (copyPages_pages_at pdf kept Hkept) as [Hcopy Hlen].
  assert (length pdf = length deleted + length kept)%nat as Hsum.
  { pose proof (kept_partition deleted (PdfLib.getPageCount pdf)
                  (parsePageRange_NoDup _ _) (parsePageRange_in_range _ _)) as Hperm.
    apply Permutation_length in Hperm. fold kept in Hperm.
    rewrite length_app in Hperm. unfold Js.range0, PdfLib.getPageCount in Hperm.
    rewrite length_map, length_seq, Nat2Z.id in Hperm. lia. }
  split; [by rewrite Hlen|]. split.
  { apply pages_at_sublist.
    - apply filter_ascending, range0_ascending.
    - eapply Forall_impl; [apply Hkept|]. simpl. lia. }
  unfold handleDeletePages. rewrite Hfile, Hget, truthy_Some by done.
  unfold PdfLib.load. rewrite Hbytes, Res_bind_Ok. fold deleted. fold kept.
  rewrite Hcopy.
  destruct (length deleted =? length pdf)%nat eqn:E;
    [apply Nat.eqb_eq in E | apply Nat.eqb_neq in E].
  - by rewrite (proj2 (Nat.eqb_eq (length kept) 0)) by lia.
  - rewrite (proj2 (Nat.eqb_neq (length kept) 0)) by lia.
    rewrite Res_bind_Ok, save_nonempty; [done|].
    intros Hnil. rewrite Hnil in Hlen. simpl in Hlen. lia.
Qed.

(** Deleting pages keeps the others in order: the output is the subsequence
    of the pages whose index was not parsed from the expression; it has
    [length pdf - length deleted] pages and is never empty, since deleting
    every page is refused. *)
Theorem handleDeletePages_keeps_rest
    (formData : FormData) (f : File) (pdf : PDFDocument) (pages : string) :
  file formData = Some f -> bytes f = Some pdf ->
  get formData "pages" = Some pages -> pages <> "" ->
  let deleted := parsePageRange pages (PdfLib.getPageCount pdf) in
  let kept :=
    List.filter (fun i => negb (existsb (Z.eqb i) deleted))
      (Js.range0 (PdfLib.getPageCount pdf)) in
  (length pdf = length deleted + length (pages_at pdf kept))%nat /\
  pages_at pdf kept `sublist_of` pdf /\
  handleDeletePages formData =
    if (length deleted =? length pdf)%nat then Throw "Cannot delete all pages"
    else Ok (pages_at pdf kept).
Proof. exact (handleDeletePages_result formData f pdf pages). Qed.

Lemma handleDeletePages_keeps_rest_witness :
  let pdf := [Scenario.page 1; Scenario.page 2; Scenario.page 3] in
  handleDeletePages
    {| file := Some (Scenario.upload pdf); files := []; fields := {[ "pages" := "2,9" ]} |}
  = Ok [Scenario.page 1; Scenario.page 3].
Proof.
  intros pdf.
  destruct (handleDeletePages_keeps_rest
              {| file := Some (Scenario.upload pdf); files := [];
                 fields := {[ "pages" := "2,9" ]} |}
              (Scenario.upload pdf) pdf "2,9")
    as (_ & _ & H3); [reflexivity | reflexivity | reflexivity | discriminate |].
  exact H3.
Defined.

(** Extraction and deletion by the same expression split the document: when
    the expression selects a page, the pages one returns and the pages the
    other returns are, together, all the pages of the input, each once.
    When it selects none, deletion returns the whole input and extraction a
    single blank page that is none of the input's. *)
Theorem extract_delete_partition
    (extractForm deleteForm : FormData) (f : File) (pdf extracted rest : PDFDocument)
    (range : string) :
  file extractForm = Some f -> file deleteForm = Some f -> bytes f = Some pdf ->
  get extractForm "range" = Some range -> get deleteForm "pages" = Some range ->
  handleExtractPages extractForm = Ok extracted ->
  handleDeletePages deleteForm = Ok rest ->
  if decide (parsePageRange range (PdfLib.getPageCount pdf) = [])
  then extracted = [PdfLib.blank_page] /\ rest = pdf
  else extracted ++ rest ≡ₚ pdf.
Proof.
  intros He Hd Hbytes Hrange Hpages Hextract Hdelete.
  assert (range <> "") as Hne.
  { intros ->. unfold handleExtractPages in Hextract.
    by rewrite He, Hrange in Hextract. }
  destruct (handleExtractPages_result extractForm f pdf range)
    as (_ & _ & _ & Hsome & Hnone); try done.
  destruct (handleDeletePages_result deleteForm f pdf range) as (_ & _ & Hd'); try done.
  rewrite Hd' in Hdelete. destruct (_ =? _)%nat; [done|]. injection Hdelete as <-.
  pose proof (kept_partition _ _ (parsePageRange_NoDup range (PdfLib.getPageCount pdf))
                (parsePageRange_in_range _ _)) as Hparts.
  destruct (decide (parsePageRange range (PdfLib.getPageCount pdf) = [])) as [Hnil|Hsel].
  - rewrite (Hnone Hnil) in Hextract. injection Hextract as <-. split; [done|].
    rewrite Hnil. simpl existsb.
    assert (forall l : list Z, List.filter (fun _ => negb false) l = l) as ->
      by (induction l as [|x l IH]; simpl; [done|f_equal; exact IH]).
    apply pages_at_all.
  - rewrite (Hsome Hsel) in Hextract. injection Hextract as <-.
    unfold pages_at. rewrite <- omap_app, Hparts.
    apply reflexive_eq, pages_at_all.
Qed.

Lemma extract_delete_partition_witness :
  let pdf := [Scenario.page 1; Scenario.page 2; Scenario.page 3] in
  [Scenario.page 2] ++ [Scenario.page 1; Scenario.page 3] ≡ₚ pdf.
Proof.
  intros pdf.
  apply (extract_delete_partition
           {| file := Some (Scenario.upload pdf); files := [];
              fields := {[ "range" := "2" ]} |}
           {| file := Some (Scenario.upload pdf); files := [];
              fields := {[ "pages" := "2" ]} |}
           (Scenario.upload pdf) pdf [Scenario.page 2]
           [Scenario.page 1; Scenario.page 3] "2"); reflexivity.
Defined.

(** * The font encoder and the colour *)

Section HexFacts.

Lemma hex_digit_range c d : hex_digit c = Some d -> 0 <= d < 16.
Proof.
  unfold hex_digit, Js.digit_value.
  repeat case_match; intros; simplify_eq; lia.
Qed.

Lemma hexToRgbValues_bounds (hex : string) :
  let '(r, g, b) := hexToRgbValues hex in
  0 <= r <= 255 /\ 0 <= g <= 255 /\ 0 <= b <= 255.
Proof.
  unfold hexToRgbValues.
  destruct (map hex_digit _) as [|[r1|] [|[r0|] [|[g1|] [|[g0|] [|[b1|] [|[b0|] [|? ?]]]]]]]
    eqn:E; try lia.
  assert (forall d, In (Some d) (map hex_digit
            (list_ascii_of_string match hex with String "#" rest => rest | _ => hex end))
          -> 0 <= d < 16) as Hd.
  { intros d (c & Hc & _)%in_map_iff. by apply hex_digit_range in Hc. }
  rewrite E in Hd.
  pose proof (Hd r1 ltac:(simpl; tauto)). pose proof (Hd r0 ltac:(simpl; tauto)).
  pose proof (Hd g1 ltac:(simpl; tauto)). pose proof (Hd g0 ltac:(simpl; tauto)).
  pose proof (Hd b1 ltac:(simpl; tauto)). pose proof (Hd b0 ltac:(simpl; tauto)).
  lia.
Qed.

End HexFacts.


Section EncoderFacts.












End EncoderFacts.





(** Merging succeeds exactly when every file loads, and then the output is
    the saved document of the pages of the files one after the other, in the
    order of the files: those pages themselves when there is one, and a
    single blank page when every file is without pages. *)
Theorem handleMerge_concatenates (formData : FormData) :
  (2 <= length (files formData))%nat ->
  match PdfOperations.handleMerge formData with
  | Ok merged =>
      exists pdfs,
        map bytes (files formData) = map Some pdfs /\
        merged = PdfLib.save (concat pdfs) /\
        (concat pdfs <> [] -> merged = concat pdfs) /\
        (concat pdfs = [] -> merged = [PdfLib.blank_page])
  | Throw _ => exists f, f ∈ files formData /\ bytes f = None
  end.
Proof.
  intros Hlen. unfold PdfOperations.handleMerge.
  rewrite (proj2 (Nat.ltb_ge _ _) Hlen). clear Hlen.
  assert (forall fs acc,
            match PdfOperations.mergeFiles fs acc with
            | Ok merged => exists pdfs, map bytes fs = map Some pdfs /\
                                        merged = acc ++ concat pdfs
            | Throw _ => exists f, f ∈ fs /\ bytes f = None
            end) as Hgen.
  { induction fs as [|f fs IH]; intros acc; simpl.
    - exists []. by rewrite app_nil_r.
    - unfold PdfLib.load. destruct (bytes f) as [pdf|] eqn:Hf.
      + rewrite Res_bind_Ok, copyPages_all, Res_bind_Ok.
        specialize (IH (acc ++ pdf)).
        destruct (PdfOperations.mergeFiles fs (acc ++ pdf)) as [merged|message].
        * destruct IH as (pdfs & Hpdfs & ->). exists (pdf :: pdfs).
          simpl. by rewrite Hpdfs, app_assoc.
        * destruct IH as (g & Hg & Hnone). exists g. split; [by right|done].
      + simpl. exists f. split; [by left|done]. }
  specialize (Hgen (files formData) []).
  destruct (PdfOperations.mergeFiles (files formData) []) as [merged|thrown];
    simpl; [|done].
  destruct Hgen as (pdfs & Hpdfs & ->). exists pdfs. simpl.
  split; [done|]. split; [done|]. split.
  - intros Hsome. by apply save_nonempty.
  - by intros ->.
Qed.

Lemma handleMerge_concatenates_witness :
  let formData :=
    {| file := None;
       files := [Scenario.upload [Scenario.page 1; Scenario.page 2];
                 Scenario.upload [Scenario.page 3]];
       fields := ∅ |} in
  PdfOperations.handleMerge formData
    = Ok [Scenario.page 1; Scenario.page 2; Scenario.page 3] /\
  match PdfOperations.handleMerge formData with
  | Ok merged =>
      exists pdfs,
        map bytes (files formData) = map Some pdfs /\
        merged = PdfLib.save (concat pdfs) /\
        (concat pdfs <> [] -> merged = concat pdfs) /\
        (concat pdfs = [] -> merged = [PdfLib.blank_page])
  | Throw _ => exists f, f ∈ files formData /\ bytes f = None
  end.
Proof.
  intros formData. split; [reflexivity|].
  apply (handleMerge_concatenates formData). simpl. lia.
Defined.

Section ReorderMore.

Lemma handleReorderPages_run formData f pdf newOrder :
  file formData = Some f -> bytes f = Some pdf ->
  get formData "order" = Some newOrder -> newOrder <> "" ->
  handleReorderPages formData =
  let totalPages := PdfLib.getPageCount pdf in
  let orderIndices :=
    map (fun n => (fun k => k - 1) <$> Js.parseInt (Js.trim n)) (Js.split "," newOrder) in
  if negb (Z.of_nat (length orderIndices) =? totalPages)
  then Throw ("Order must include all " +:+ pretty totalPages +:+ " pages")
  else if existsb (fun i => match i with
                            | Some i => (i <? 0) || (totalPages <=? i)
                            | None => false
                            end) orderIndices
  then Throw "Invalid page number in order"
  else pages ← PdfLib.copyPages pdf orderIndices; Ok (PdfLib.save pages).
Proof.
  intros Hfile Hbytes Hget Hne. unfold handleReorderPages.
  rewrite Hfile, Hget, truthy_Some by done.
  unfold PdfLib.load. by rewrite Hbytes, Res_bind_Ok.
Qed.

Lemma copyPages_NaN pdf indices :
  None ∈ indices -> exists message, PdfLib.copyPages pdf indices = Throw message.
Proof.
  induction indices as [|[i|] rest IH]; intros Hin.
  - by apply elem_of_nil in Hin.
  - apply elem_of_cons in Hin as [?|Hin]; [done|]. destruct (IH Hin) as [message Hm].
    simpl. destruct (PdfLib.getPage pdf i); simpl; [|by eexists].
    rewrite Hm. simpl. by eexists.
  - simpl. by eexists.
Qed.

End ReorderMore.

(** An order that is a bijection onto the page numbers is accepted and
    loses no page: the output is a permutation of the input, with the
    input's page [order[k]] at position [k]. *)
Theorem handleReorderPages_permutation
    (formData : FormData) (f : File) (pdf : PDFDocument) (newOrder : string)
    (order : list Z) :
  file formData = Some f -> bytes f = Some pdf ->
  get formData "order" = Some newOrder -> newOrder <> "" ->
  map (fun n => Js.parseInt (Js.trim n)) (Js.split "," newOrder) = map Some order ->
  order ≡ₚ map (fun i => i + 1) (Js.range0 (PdfLib.getPageCount pdf)) ->
  exists out,
    handleReorderPages formData = Ok out /\
    out ≡ₚ pdf /\
    (forall k p, order !! k = Some p -> out !! k = pdf !! Z.to_nat (p - 1)).
Proof.
  intros Hfile Hbytes Hget Hne Hparse Hperm.
  assert (length order = length pdf) as Hlen.
  { rewrite Hperm, length_map. unfold Js.range0, PdfLib.getPageCount.
    by rewrite length_map, length_seq, Nat2Z.id. }
  assert (Forall (fun p => 1 <= p <= PdfLib.getPageCount pdf) order) as Hrange.
  { apply Forall_forall. intros p Hp. rewrite Hperm in Hp.
    apply list_elem_of_fmap in Hp as (i & -> & Hi%range0_elem). lia. }
  destruct (handleReorderPages_accepts formData f pdf newOrder order)
    as (out & Hrun & Hlen' & Hlook); try done.
  exists out. split; [done|]. split; [|done].
  assert (out = pages_at pdf (map (fun p => p - 1) order)) as ->.
  { rewrite (handleReorderPages_run formData f pdf newOrder) in Hrun by done.
    cbv zeta in Hrun.
    assert (map (fun n => (fun k => k - 1) <$> Js.parseInt (Js.trim n))
              (Js.split "," newOrder)
            = map Some (map (fun p => p - 1) order)) as Hidx.
    { rewrite <- (map_map (fun n => Js.parseInt (Js.trim n)) (fmap (fun k => k - 1))).
      rewrite Hparse, !map_map. done. }
    rewrite Hidx in Hrun.
    destruct (negb _); [done|]. destruct (existsb _ _); [done|].
    destruct (copyPages_pages_at pdf (map (fun p => p - 1) order)) as [Hcopy Hcl].
    { rewrite Forall_forall in Hrange. apply Forall_forall.
      intros i (p & -> & Hp)%list_elem_of_fmap. specialize (Hrange p Hp). lia. }
    rewrite Hcopy, Res_bind_Ok in Hrun. injection Hrun as <-.
    apply save_nonempty. intros Hnil. rewrite Hnil, length_map in Hcl.
    pose proof (split_nonempty "," newOrder) as Hsplit.
    destruct order; [|done]. by destruct (Js.split "," newOrder). }
  apply (Permutation_map (fun p => p - 1)) in Hperm. rewrite map_map in Hperm.
  assert (forall l : list Z, map (fun x => x + 1 - 1) l = l) as Hid.
  { induction l as [|x l IH]; simpl; [done|]. rewrite IH. f_equal. lia. }
  rewrite Hid in Hperm.
  unfold pages_at. rewrite Hperm. apply reflexive_eq, pages_at_all.
Qed.

Lemma handleReorderPages_permutation_witness :
  let pdf := [Scenario.page 1; Scenario.page 2; Scenario.page 3] in
  exists out,
    handleReorderPages
      {| file := Some (Scenario.upload pdf); files := [];
         fields := {[ "order" := "3, 1,2" ]} |} = Ok out /\
    out ≡ₚ pdf /\ out !! 0%nat = Some (Scenario.page 3).
Proof.
  intros pdf.
  destruct (handleReorderPages_permutation
              {| file := Some (Scenario.upload pdf); files := [];
                 fields := {[ "order" := "3, 1,2" ]} |}
              (Scenario.upload pdf) pdf "3, 1,2" [3; 1; 2])
    as (out & H1 & H2 & H3);
    [reflexivity | reflexivity | reflexivity | discriminate | reflexivity | |].
  { vm_compute. apply (perm_trans (l' := [1; 3; 2])); [apply perm_swap|].
    apply perm_skip, perm_swap. }
  exists out. split; [exact H1|]. split; [exact H2|]. exact (H3 0%nat 3 eq_refl).
Defined.

(** What [handleReorderPages] refuses: an order with another number of
    entries than the document has pages, an order with an entry below 1 or
    above the page count, and, past its own checks, an order with an entry
    that is not a number (the page copy then fails). *)
Theorem handleReorderPages_rejects
    (formData : FormData) (f : File) (pdf : PDFDocument) (newOrder : string) :
  file formData = Some f -> bytes f = Some pdf ->
  get formData "order" = Some newOrder -> newOrder <> "" ->
  let totalPages := PdfLib.getPageCount pdf in
  let entries := map (fun n => Js.parseInt (Js.trim n)) (Js.split "," newOrder) in
  (length entries <> length pdf ->
   handleReorderPages formData =
   Throw ("Order must include all " +:+ pretty totalPages +:+ " pages")) /\
  (length entries = length pdf ->
   (exists p, Some p ∈ entries /\ (p < 1 \/ totalPages < p)) ->
   handleReorderPages formData = Throw "Invalid page number in order") /\
  (None ∈ entries -> exists message, handleReorderPages formData = Throw message).
Proof.
  intros Hfile Hbytes Hget Hne totalPages entries.
  rewrite (handleReorderPages_run formData f pdf newOrder) by done. cbv zeta.
  fold totalPages.
  assert (map (fun n => (fun k => k - 1) <$> Js.parseInt (Js.trim n))
            (Js.split "," newOrder)
          = map (fmap (fun k => k - 1)) entries) as ->
    by (unfold entries; by rewrite map_map).
  rewrite length_map. unfold totalPages, PdfLib.getPageCount.
  split; [|split].
  - intros Hlen. by rewrite (proj2 (Z.eqb_neq _ _)) by lia.
  - intros Hlen (p & Hp & Hbad). rewrite Hlen, Z.eqb_refl. simpl.
    assert (existsb (fun i : option Z => match i with
                       | Some i => (i <? 0) || (Z.of_nat (length pdf) <=? i)
                       | None => false end)
              (map (fmap (fun k => k - 1)) entries) = true) as ->; [|done].
    apply existsb_exists. exists (Some (p - 1)). split.
    + apply in_map_iff. exists (Some p). split; [done|]. by apply list_elem_of_In.
    + apply orb_true_iff. unfold totalPages, PdfLib.getPageCount in Hbad.
      rewrite Z.ltb_lt, Z.leb_le. lia.
  - intros Hnan. destruct (negb _); [by eexists|]. destruct (existsb _ _); [by eexists|].
    destruct (copyPages_NaN pdf (map (fmap (fun k => k - 1)) entries)) as (thrown & ->).
    + apply list_elem_of_In, in_map_iff. exists None.
      split; [done|]. by apply list_elem_of_In.
    + by exists thrown.
Qed.

Lemma handleReorderPages_rejects_witness :
  let pdf := [Scenario.page 1; Scenario.page 2] in
  let request order :=
    {| file := Some (Scenario.upload pdf); files := []; fields := {[ "order" := order ]} |} in
  handleReorderPages (request "1") = Throw "Order must include all 2 pages" /\
  handleReorderPages (request "1,3") = Throw "Invalid page number in order" /\
  exists message, handleReorderPages (request "1,x") = Throw message.
Proof.
  intros pdf request.
  destruct (handleReorderPages_rejects (request "1") (Scenario.upload pdf) pdf "1")
    as (H1 & _ & _); [reflexivity | reflexivity | reflexivity | discriminate |].
  destruct (handleReorderPages_rejects (request "1,3") (Scenario.upload pdf) pdf "1,3")
    as (_ & H2 & _); [reflexivity | reflexivity | reflexivity | discriminate |].
  destruct (handleReorderPages_rejects (request "1,x") (Scenario.upload pdf) pdf "1,x")
    as (_ & _ & H3); [reflexivity | reflexivity | reflexivity | discriminate |].
  split; [apply H1; discriminate|].
  split; [apply H2; [reflexivity|exists 3; split; [vm_compute; set_solver|right; reflexivity]]|].
  apply H3. vm_compute. set_solver.
Defined.

(** * Further properties of [parsePageRange] *)


(** [parsePageRange] selects exactly the indices inside the document that
    some part of the expression covers. *)
Theorem parsePageRange_selects (range : string) (totalPages y : Z) :
  y ∈ parsePageRange range totalPages <->
  0 <= y < totalPages /\ exists part, part ∈ Js.split "," range /\ covers part y = true.
Proof. exact (parsePageRange_elem_covers range totalPages y). Qed.

(** The result depends on the parts of the expression as a set: their order
    and their repetitions do not matter. *)
Theorem parsePageRange_set_of_parts (range range' : string) (totalPages : Z) :
  (forall part, part ∈ Js.split "," range <-> part ∈ Js.split "," range') ->
  parsePageRange range totalPages = parsePageRange range' totalPages.
Proof.
  intros Hparts. apply ascending_ext; try apply parsePageRange_ascending.
  intros y. rewrite !parsePageRange_elem_covers.
  split; intros (? & part & Hp & ?); (split; [done|]); exists part; (split; [|done]);
    by apply Hparts.
Qed.

Lemma parsePageRange_set_of_parts_witness :
  parsePageRange "4-5,1,4-5" 9 = parsePageRange "1,4-5" 9.
Proof.
  apply (parsePageRange_set_of_parts "4-5,1,4-5" "1,4-5" 9).
  intros part. vm_compute. set_solver.
Defined.

(** The page count only clips: for a shorter document the result is the
    result for the longer one, cut at the shorter page count. *)
Theorem parsePageRange_clips (range : string) (totalPages totalPages' : Z) :
  totalPages <= totalPages' ->
  parsePageRange range totalPages =
  List.filter (fun i => i <? totalPages) (parsePageRange range totalPages').
Proof.
  intros Hle. apply ascending_ext.
  - apply parsePageRange_ascending.
  - apply filter_ascending, parsePageRange_ascending.
  - intros y. rewrite filter_elem, !parsePageRange_elem_covers, Z.ltb_lt. intuition lia.
Qed.

Lemma parsePageRange_clips_witness :
  parsePageRange "2-9" 4 = List.filter (fun i => i <? 4) (parsePageRange "2-9" 7).
Proof. apply (parsePageRange_clips "2-9" 4 7). lia. Defined.

(** * [hexToRgbValues] *)


(** Every colour component [hexToRgbValues] returns lies in [0, 255],
    whatever the string. *)
Theorem hexToRgbValues_in_range (hex : string) :
  let '(r, g, b) := hexToRgbValues hex in
  0 <= r <= 255 /\ 0 <= g <= 255 /\ 0 <= b <= 255.
Proof. exact (hexToRgbValues_bounds hex). Qed.

(** * Splitting and numbering *)

(** The three behaviours of [handleSplit]: in mode "range" with a range it
    is [handleExtractPages]; in mode "single" with a page number inside the
    document it returns that page alone; in every other case, the default
    mode "all" included, it returns only the first page. *)
Theorem handleSplit_modes (formData : FormData) (f : File) (pdf : PDFDocument) :
  file formData = Some f -> bytes f = Some pdf ->
  let mode := str_or (get formData "mode") "all" in
  let pageNumber := int_or (get formData "pageNumber" ≫= Js.parseInt) 1 in
  let inside := (1 <=? pageNumber) && (pageNumber <=? PdfLib.getPageCount pdf) in
  (mode = "single" -> inside = true ->
   exists page, pdf !! Z.to_nat (pageNumber - 1) = Some page /\
                PdfOperations.handleSplit formData = Ok [page]) /\
  (mode = "range" -> truthy (get formData "range") <> None ->
   PdfOperations.handleSplit formData = handleExtractPages formData) /\
  ((mode = "single" -> inside = false) ->
   (mode = "range" -> truthy (get formData "range") = None) ->
   forall first rest, pdf = first :: rest ->
     PdfOperations.handleSplit formData = Ok [first]).
Proof.
  intros Hfile Hbytes mode pageNumber inside.
  unfold PdfOperations.handleSplit, handleExtractPages.
  rewrite Hfile. unfold PdfLib.load. rewrite Hbytes, !Res_bind_Ok.
  fold mode. fold pageNumber. rewrite <- andb_assoc. fold inside.
  split; [|split].
  - intros -> Hin. rewrite Hin. simpl.
    apply andb_prop in Hin as [H1%Z.leb_le H2%Z.leb_le].
    destruct (getPage_Ok pdf (pageNumber - 1)) as (page & Hpage & ->); [lia|].
    by exists page.
  - intros -> Hrange. simpl.
    destruct (truthy (get formData "range")) as [range|]; done.
  - intros Hsingle Hrange first rest ->.
    assert (String.eqb mode "single" && inside = false) as ->.
    { destruct (String.eqb mode "single") eqn:E; [|done].
      apply String.eqb_eq in E. by rewrite (Hsingle E). }
    assert ((if String.eqb mode "range" then truthy (get formData "range") else None)
            = None) as ->.
    { destruct (String.eqb mode "range") eqn:E; [|done].
      apply String.eqb_eq in E. by apply Hrange. }
    done.
Qed.

Lemma handleSplit_modes_witness :
  let pdf := [Scenario.page 1; Scenario.page 2; Scenario.page 3] in
  let request fields := {| file := Some (Scenario.upload pdf); files := []; fields := fields |} in
  PdfOperations.handleSplit (request {[ "mode" := "single"; "pageNumber" := "3" ]})
    = Ok [Scenario.page 3] /\
  PdfOperations.handleSplit (request {[ "mode" := "single"; "pageNumber" := "7" ]})
    = Ok [Scenario.page 1] /\
  PdfOperations.handleSplit (request ∅) = Ok [Scenario.page 1].
Proof.
  intros pdf request.
  destruct (handleSplit_modes (request {[ "mode" := "single"; "pageNumber" := "3" ]})
              (Scenario.upload pdf) pdf eq_refl eq_refl) as (H1 & _ & _).
  destruct (handleSplit_modes (request {[ "mode" := "single"; "pageNumber" := "7" ]})
              (Scenario.upload pdf) pdf eq_refl eq_refl) as (_ & _ & H2).
  destruct (handleSplit_modes (request ∅) (Scenario.upload pdf) pdf eq_refl eq_refl)
    as (_ & _ & H3).
  split.
  { destruct (H1 eq_refl eq_refl) as (page & Hpage & Hrun).
    vm_compute in Hpage. injection Hpage as <-. exact Hrun. }
  split.
  - apply (H2 ltac:(reflexivity) ltac:(discriminate) _ _ eq_refl).
  - apply (H3 ltac:(discriminate) ltac:(discriminate) _ _ eq_refl).
Defined.



(** * Further properties of the credits deduction route *)

(** A user without a row cannot be charged through the route: it answers
    500 and, unlike the ledger, creates no row.  What the route throws is
    the backend client's error object, which is not an [Error] instance, so
    the response reads "Unknown error". *)
Theorem credits_deduct_POST_no_row
    (header : option string) (user : string) (amount : Z) (why : option string)
    (w : World) :
  user <> "" -> amount <> 0 ->
  user_credits w !! user = None ->
  let result :=
    run (CreditsDeduct.POST
           {| CreditsDeduct.authorization := header;
              CreditsDeduct.json :=
                Some {| CreditsDeduct.user_id := Some user;
                        CreditsDeduct.amount := Some amount;
                        CreditsDeduct.reason := why |} |}) w in
  result.1 = Ok (CreditsDeduct.JsonError 500 "Unknown error") /\
  user_credits result.2 = user_credits w /\
  credit_transactions result.2 = credit_transactions w /\
  calls result.2 = calls w ++ [SelectCredits user].
Proof.
  intros Huser Hamount Hrow.
  unfold CreditsDeduct.POST, select_credits. cbn.
  rewrite truthy_Some by done. rewrite (proj2 (Z.eqb_neq amount 0)) by done.
  cbn. destruct (hd false (faults w)); cbn; rewrite ?Hrow; done.
Qed.

Lemma credits_deduct_POST_no_row_witness :
  let result :=
    run (CreditsDeduct.POST
           {| CreditsDeduct.authorization := None;
              CreditsDeduct.json :=
                Some {| CreditsDeduct.user_id := Some "bob";
                        CreditsDeduct.amount := Some 20;
                        CreditsDeduct.reason := None |} |}) (Scenario.world 10) in
  result.1 = Ok (CreditsDeduct.JsonError 500 "Unknown error") /\
  user_credits result.2 = {[ "alice" := 10 ]}.
Proof.
  intros result.
  destruct (credits_deduct_POST_no_row None "bob" 20 None (Scenario.world 10))
    as (H1 & H2 & _); [discriminate | discriminate | reflexivity |].
  split; [exact H1 | exact H2].
Defined.

(** The route does not compensate: when the decrement succeeds and the
    audit insert fails it still answers with success, the balance stays
    decremented and there is no audit row for it. *)
Theorem credits_deduct_POST_audit_failure_ignored
    (header : option string) (user : string) (amount balance : Z) (why : option string)
    (w : World) :
  user <> "" -> amount <> 0 ->
  user_credits w !! user = Some balance ->
  amount <= balance ->
  firstn 3 (faults w) = [false; false; true] ->
  let result :=
    run (CreditsDeduct.POST
           {| CreditsDeduct.authorization := header;
              CreditsDeduct.json :=
                Some {| CreditsDeduct.user_id := Some user;
                        CreditsDeduct.amount := Some amount;
                        CreditsDeduct.reason := why |} |}) w in
  result.1 = Ok (CreditsDeduct.Success (balance - amount)) /\
  user_credits result.2 !! user = Some (balance - amount) /\
  credit_transactions result.2 = credit_transactions w.
Proof.
  intros Huser Hamount Hrow Hle Hfaults.
  unfold CreditsDeduct.POST, select_credits, update_credits, insert_transaction.
  cbn. rewrite truthy_Some by done. rewrite (proj2 (Z.eqb_neq amount 0)) by done.
  destruct (faults w) as [|f1 [|f2 [|f3 rest]]] eqn:E; try discriminate.
  injection Hfaults as -> -> ->.
  cbn. rewrite E. cbn. rewrite Hrow. cbn. rewrite int_or_0.
  rewrite (proj2 (Z.ltb_ge balance amount)) by done. cbn. rewrite ?E. cbn.
  by rewrite lookup_alter_eq, Hrow.
Qed.

Lemma credits_deduct_POST_audit_failure_ignored_witness :
  let w := {| user_credits := {[ "alice" := 10 ]}; credit_transactions := [];
              sessions := ∅; faults := [false; false; true]; calls := [] |} in
  let result :=
    run (CreditsDeduct.POST
           {| CreditsDeduct.authorization := None;
              CreditsDeduct.json :=
                Some {| CreditsDeduct.user_id := Some "alice";
                        CreditsDeduct.amount := Some 4;
                        CreditsDeduct.reason := None |} |}) w in
  result.1 = Ok (CreditsDeduct.Success 6) /\
  user_credits result.2 !! "alice" = Some 6 /\
  credit_transactions result.2 = [].
Proof.
  intros w result.
  apply (credits_deduct_POST_audit_failure_ignored None "alice" 4 10 None w);
    [discriminate | discriminate | reflexivity | lia | reflexivity].
Defined.

(** The route accepts a negative amount: the "deduction" then raises the
    stored balance by that many credits and is logged as a positive audit
    amount. *)
Theorem credits_deduct_POST_negative_amount
    (header : option string) (user : string) (amount balance : Z) (why : option string)
    (w : World) :
  user <> "" -> amount < 0 -> 0 <= balance ->
  user_credits w !! user = Some balance ->
  fault_free 3 w = true ->
  let result :=
    run (CreditsDeduct.POST
           {| CreditsDeduct.authorization := header;
              CreditsDeduct.json :=
                Some {| CreditsDeduct.user_id := Some user;
                        CreditsDeduct.amount := Some amount;
                        CreditsDeduct.reason := why |} |}) w in
  exists raised,
    balance < raised /\ raised = balance - amount /\
    result.1 = Ok (CreditsDeduct.Success raised) /\
    user_credits result.2 !! user = Some raised /\
    credit_transactions result.2 =
      credit_transactions w ++
        [{| tx_user_id := user; tx_amount := - amount;
            tx_reason := str_or why "Credit usage" |}].
Proof.
  intros Huser Hneg Hbalance Hrow Hfree. exists (balance - amount).
  split; [lia|]. split; [done|].
  unfold CreditsDeduct.POST, select_credits, update_credits, insert_transaction,
    fault_free in *.
  cbn. rewrite truthy_Some by done. rewrite (proj2 (Z.eqb_neq amount 0)) by lia.
  destruct (faults w) as [|[] [|[] [|[] ?]]] eqn:Hfaults; try discriminate;
    cbn; rewrite Hfaults; cbn; rewrite Hrow; cbn; rewrite int_or_0;
    rewrite (proj2 (Z.ltb_ge balance amount)) by lia; cbn; rewrite ?Hfaults; cbn;
    rewrite ?lookup_alter_eq, ?Hrow; done.
Qed.

Lemma credits_deduct_POST_negative_amount_witness :
  let result :=
    run (CreditsDeduct.POST
           {| CreditsDeduct.authorization := None;
              CreditsDeduct.json :=
                Some {| CreditsDeduct.user_id := Some "alice";
                        CreditsDeduct.amount := Some (-1000);
                        CreditsDeduct.reason := None |} |}) (Scenario.world 10) in
  result.1 = Ok (CreditsDeduct.Success 1010) /\
  user_credits result.2 !! "alice" = Some 1010.
Proof.
  intros result.
  destruct (credits_deduct_POST_negative_amount None "alice" (-1000) 10 None
              (Scenario.world 10))
    as (raised & _ & -> & H1 & H2 & _);
    [discriminate | lia | lia | reflexivity | reflexivity |].
  split; [exact H1 | exact H2].
Defined.

(** * Certification and verification *)

Section CertificationFacts.

Variable hashDocument : string -> string.
Variable pageCount : string -> option Z.
Variable stamp : string -> Z -> string -> string -> string -> string.

Lemma filter_fresh_id (records : list Signatures.Certificate) (id : string) :
  (forall c, In c records -> Signatures.certificate_id c <> id) ->
  List.filter (fun c => String.eqb (Signatures.certificate_id c) id) records = [].
Proof.
  induction records as [|c records IH]; intros Hfresh; simpl; [done|].
  rewrite (proj2 (String.eqb_neq _ _)) by (apply Hfresh; by left).
  apply IH. intros c' Hc'. apply Hfresh. by right.
Qed.

(** A certificate issued under a fresh id verifies the bytes it was issued
    for: verification by that id answers [valid] exactly when the presented
    bytes hash like the certified ones, and reports the signer and reason
    that were stored.  The hash is taken before the certificate box is drawn,
    so the stamped document the caller gets back verifies only if stamping
    did not change the hash. *)
Theorem certificate_round_trip
    (records records' : list Signatures.Certificate) (email certId : string) (now : Z)
    (formData : Certification.CertificateForm) (stamped : string) :
  certId <> "" ->
  (forall c, In c records -> Signatures.certificate_id c <> certId) ->
  Certification.handleAddCertificate hashDocument pageCount stamp
    records false email certId now formData = Ok (stamped, records') ->
  exists original,
    Certification.file formData = Some original /\
    forall presented,
      let hashMatch := String.eqb (hashDocument original) (hashDocument presented) in
      Signatures.handleVerifySignature hashDocument records' false
        {| Signatures.file := Some presented; Signatures.certificateId := Some certId |}
      = Ok (Signatures.CertificateChecked hashMatch certId
              (str_or (Certification.signerName formData) email) now
              (str_or (Certification.reason formData) "Document certification")
              hashMatch
              (if hashMatch then None
               else Some "Document has been modified since signing")).
Proof.
  intros Hid Hfresh Hadd. unfold Certification.handleAddCertificate in Hadd.
  destruct (Certification.file formData) as [original|]; [|done].
  destruct (pageCount original) as [count|]; [|done].
  destruct (_ || _) in Hadd; [done|]. injection Hadd as _ <-.
  exists original. split; [done|]. intros presented hashMatch.
  unfold Signatures.handleVerifySignature. simpl Signatures.file.
  simpl Signatures.certificateId. rewrite truthy_Some by done.
  unfold Certification.insert_certificate. simpl orb. simpl Signatures.certificate_id.
  assert (existsb (fun c => String.eqb (Signatures.certificate_id c) certId) records
          = false) as ->.
  { apply not_true_iff_false. intros (c & Hc & Heq%String.eqb_eq)%existsb_exists.
    by apply (Hfresh c). }
  rewrite List.filter_app, filter_fresh_id by done. simpl.
  by rewrite String.eqb_refl.
Qed.

End CertificationFacts.

Lemma certificate_round_trip_witness :
  let hashDocument (bytes : string) := ("sha256:" +:+ bytes)%string in
  let pageCount (bytes : string) := Some 2 in
  let stamp (bytes : string) (page : Z) (signer why certId : string) :=
    (bytes +:+ "[" +:+ certId +:+ "]")%string in
  let formData :=
    {| Certification.file := Some "%PDF-1.7 contract";
       Certification.page := Some "2";
       Certification.signerName := Some "Alice";
       Certification.reason := None |} in
  exists stamped records',
    Certification.handleAddCertificate hashDocument pageCount stamp
      [] false "alice@example.com" "CERT-AB12-CD34-EF56" 1700000000 formData
    = Ok (stamped, records') /\
    Signatures.valid <$>
      (match Signatures.handleVerifySignature hashDocument records' false
               {| Signatures.file := Some "%PDF-1.7 contract";
                  Signatures.certificateId := Some "CERT-AB12-CD34-EF56" |} with
       | Ok data => Some data
       | Throw _ => None
       end) = Some (Some true) /\
    Signatures.valid <$>
      (match Signatures.handleVerifySignature hashDocument records' false
               {| Signatures.file := Some stamped;
                  Signatures.certificateId := Some "CERT-AB12-CD34-EF56" |} with
       | Ok data => Some data
       | Throw _ => None
       end) = Some (Some false).
Proof.
  intros hashDocument pageCount stamp formData.
  eexists _, _. split; [reflexivity|].
  assert ("CERT-AB12-CD34-EF56" <> "") as Hid by discriminate.
  assert (forall c : Signatures.Certificate,
            In c [] -> Signatures.certificate_id c <> "CERT-AB12-CD34-EF56")
    as Hfresh by (by intros c []).
  destruct (certificate_round_trip hashDocument pageCount stamp [] _
              "alice@example.com" "CERT-AB12-CD34-EF56" 1700000000 formData _
              Hid Hfresh eq_refl) as (original & Hfile & Hverify).
  injection Hfile as <-.
  split; rewrite Hverify; reflexivity.
Defined.
